(** * domain-types-linter: the annotation linter of [linter_types.py]

    A shallow embedding of [src/domain_types_linter/linter_types.py]: the
    policy tables, the part of Python's [ast] the linter reads, the
    [Linter] object as an explicit state, and its methods as state
    transformers.  Python strings are modelled as byte strings (UTF-8);
    the Python sets are finite sets or, where the code iterates over them,
    lists. *)

From Stdlib Require Import Ascii.
From stdpp Require Import base decidable list strings gmap pretty.

Set Warnings "-register-all".

(** ** Policy data *)

(** The three module-level sets.  Only membership and (for the first one)
    iteration are used; the lists keep the order of the source text. *)
Definition DISALLOWED_BASE_TYPES : list string :=
  [ "str"; "int"; "float"; "complex"; "bytes"; "bytearray"; "Decimal";
    "Any"; "AnyStr" ].

Definition DISALLOWED_GENERIC_TYPES : list string :=
  [ "list"; "List"; "dict"; "Dict"; "set"; "Set"; "tuple"; "Tuple";
    "frozenset"; "FrozenSet"; "Mapping"; "MutableMapping"; "Sequence";
    "MutableSequence"; "Iterable"; "Iterator"; "AsyncIterable";
    "AsyncIterator"; "AsyncGenerator"; "Container"; "Collection";
    "Reversible"; "DefaultDict"; "ChainMap"; "Generator"; "Optional";
    "ClassVar"; "Deque"; "Final"; "Annotated" ].

Definition ALLOWED_GENERIC_TYPES : list string :=
  [ "Callable"; "Awaitable"; "Type" ].

(** ** Syntax trees (Python's [ast], version 3.9 and later) *)

(** [ast.operator], the operator of a [BinOp]. *)
Inductive operator : Set :=
| Add | Sub | Mult | MatMult | Div | Mod | Pow
| LShift | RShift | BitOr | BitXor | BitAnd | FloorDiv.

(** [ast.expr].  The classes [check_annotation] tells apart have a
    constructor of their own; every other expression class (Constant,
    List, Lambda, ...) is [OtherExpr], with the expressions below it in
    field order.  [lineno] is the attribute [record_error] reads with
    [getattr(node, "lineno", ...)]: [None] when the node carries none.  It
    is kept on the two classes that are ever handed to [record_error]. *)
Inductive expr : Type :=
| Name (id : string) (lineno : option nat)
| Attribute (value : expr) (attr : string) (lineno : option nat)
| Subscript (value : expr) (slice : expr)
| BinOp (left : expr) (op : operator) (right : expr)
| Tuple (elts : list expr)
| Call (func : expr) (args : list expr) (keywords : list expr)
| OtherExpr (children : list expr).

(** [ast.arg] and [ast.arguments]: the parameters of a function.
    [kw_defaults] lists the defaults that are present (Python keeps a
    [None] for a keyword-only parameter without one, which [generic_visit]
    skips). *)
Record arg : Type := mk_arg {
  arg_name : string;
  annotation : option expr
}.

Record arguments : Type := mk_arguments {
  posonlyargs : list arg;
  args : list arg;
  vararg : option arg;
  kwonlyargs : list arg;
  kw_defaults : list expr;
  kwarg : option arg;
  defaults : list expr
}.

(** [ast.stmt].  [OtherStmt] stands for every statement class the linter
    has no [visit_] method for and that is not listed here (If, For, With,
    Try, Return, ...): its children, expressions and statements, in field
    order; nodes between them that are neither (ExceptHandler, withitem,
    match_case) are flattened, as [generic_visit] walks straight through
    them. *)
Inductive stmt : Type :=
| Assign (targets : list expr) (value : expr)
| AnnAssign (target : expr) (ann : expr) (value : option expr)
| FunctionDef (name : string) (fargs : arguments) (body : list stmt)
    (decorator_list : list expr) (returns : option expr)
| AsyncFunctionDef (name : string) (fargs : arguments) (body : list stmt)
    (decorator_list : list expr) (returns : option expr)
| ClassDef (name : string) (bases : list expr) (keywords : list expr)
    (body : list stmt) (decorator_list : list expr)
| OtherStmt (children : list (expr + stmt)).

(** [ast.Module]. *)
Inductive mod_ : Type :=
| Module (body : list stmt).

(** ** The linter's state and its messages *)

(** [self.errors] and [self.aliases]. *)
Record Linter : Type := mk_Linter {
  errors : list string;
  aliases : gset string
}.

(** [Linter.__init__]. *)
Definition Linter_init : Linter := {| errors := []; aliases := ∅ |}.

(** The three message templates of [check_annotation], under the names the
    specification gives to the rules. *)
Inductive rule : Set := AliasLeak | BarePrimitive | UnparameterizedGeneric.

Definition rule_message (r : rule) (name : string) : string :=
  match r with
  | AliasLeak =>
      "Использование алиаса '" +:+ name +:+ "' в аннотации недопустимо."
  | BarePrimitive =>
      "Использование универсального типа '" +:+ name +:+ "' недопустимо."
  | UnparameterizedGeneric =>
      "Использование универсального контейнера '" +:+ name
        +:+ "' без параметров недопустимо."
  end.

(** The entry [record_error] builds: the line number, or the word for
    "unknown" when the node has none, then the message. *)
Definition error_line (lineno : option nat) (message : string) : string :=
  "Строка "
    +:+ match lineno with Some n => pretty n | None => "неизвестно" end
    +:+ ": " +:+ message.

(** [Linter.record_error]; the node is given by its [lineno] attribute. *)
Definition record_error (lineno : option nat) (message : string)
    (self : Linter) : Linter :=
  {| errors := errors self ++ [error_line lineno message];
     aliases := aliases self |}.

(** The entry of a violation of rule [r] by [name], recorded for a node at
    [lineno]. *)
Definition violation (lineno : option nat) (r : rule) (name : string)
    : string :=
  error_line lineno (rule_message r name).

(** ** The annotation classifier *)

(** [str.endswith]. *)
Definition endswith (s suffix : string) : bool :=
  bool_decide (String.list_ascii_of_string suffix
                 `suffix_of` String.list_ascii_of_string s).

(** The list [attr_names] that the loop of [get_full_attr_name] builds:
    innermost attribute first, the base name last when the chain starts at
    a [Name]. *)
Fixpoint attr_names (node : expr) : list string :=
  match node with
  | Attribute value attr _ => attr :: attr_names value
  | Name id _ => [id]
  | _ => []
  end.

(** [Linter.get_full_attr_name]. *)
Definition get_full_attr_name (node : expr) : string :=
  String.concat "." (rev (attr_names node)).

(** [Linter.has_parameters], as a function of [annotation.slice], the only
    field it reads. *)
Definition has_parameters (slice_node : expr) : bool :=
  match slice_node with
  | Name id _ =>
      negb (bool_decide (id ∈ DISALLOWED_GENERIC_TYPES)
            || bool_decide (id ∈ DISALLOWED_BASE_TYPES))
  | Tuple _ => true
  | _ => true
  end.

(** [Linter.check_annotation]. *)
Fixpoint check_annotation (annotation : expr) (self : Linter) : Linter :=
  match annotation with
  | Name id lineno =>
      if bool_decide (id ∈ aliases self) then
        record_error lineno (rule_message AliasLeak id) self
      else if bool_decide (id ∈ DISALLOWED_BASE_TYPES) then
        record_error lineno (rule_message BarePrimitive id) self
      else if bool_decide (id ∈ DISALLOWED_GENERIC_TYPES) then
        record_error lineno (rule_message UnparameterizedGeneric id) self
      else self
  | Subscript outer_type inner_annotation =>
      match outer_type with
      | Name type_name lineno =>
          if bool_decide (type_name ∈ DISALLOWED_GENERIC_TYPES) then
            let self :=
              if negb (has_parameters inner_annotation) then
                record_error lineno
                  (rule_message UnparameterizedGeneric type_name) self
              else self in
            check_annotation inner_annotation self
          else if bool_decide (type_name ∈ ALLOWED_GENERIC_TYPES) then
            check_annotation inner_annotation self
          else
            check_annotation inner_annotation self
      | _ =>
          check_annotation inner_annotation (check_annotation outer_type self)
      end
  | BinOp left_ BitOr right_ =>
      check_annotation right_ (check_annotation left_ self)
  | Tuple elts =>
      fold_left (fun self elt => check_annotation elt self) elts self
  | Call _ args _ =>
      fold_left (fun self arg => check_annotation arg self) args self
  | Attribute _ _ lineno =>
      let full_name := get_full_attr_name annotation in
      fold_left
        (fun self disallowed =>
           if endswith full_name disallowed then
             record_error lineno (rule_message BarePrimitive full_name) self
           else self)
        DISALLOWED_BASE_TYPES self
  | _ => self
  end.

(** ** The tree walker *)

(** The two loops of [NodeVisitor.generic_visit]: over a field that holds a
    list of nodes, and over a field that holds a node or [None]. *)
Definition visit_list {A : Type} (visit : A → Linter → Linter)
    (nodes : list A) (self : Linter) : Linter :=
  fold_left (fun self node => visit node self) nodes self.

Definition visit_opt {A : Type} (visit : A → Linter → Linter)
    (node : option A) (self : Linter) : Linter :=
  match node with
  | Some n => visit n self
  | None => self
  end.

(** [NodeVisitor.visit] on an expression.  [Linter] has no [visit_] method
    for any expression class, so the dispatch always lands in
    [generic_visit], which visits the child nodes in field order. *)
Fixpoint visit_expr (node : expr) (self : Linter) : Linter :=
  match node with
  | Name _ _ => self
  | Attribute value _ _ => visit_expr value self
  | Subscript value slice => visit_expr slice (visit_expr value self)
  | BinOp left_ _ right_ => visit_expr right_ (visit_expr left_ self)
  | Tuple elts => visit_list visit_expr elts self
  | Call func args keywords =>
      visit_list visit_expr keywords
        (visit_list visit_expr args (visit_expr func self))
  | OtherExpr children => visit_list visit_expr children self
  end.

(** [generic_visit] on an [ast.arg] and on an [ast.arguments] node. *)
Definition visit_arg (node : arg) (self : Linter) : Linter :=
  visit_opt visit_expr (annotation node) self.

Definition visit_arguments (node : arguments) (self : Linter) : Linter :=
  let self := visit_list visit_arg (posonlyargs node) self in
  let self := visit_list visit_arg (args node) self in
  let self := visit_opt visit_arg (vararg node) self in
  let self := visit_list visit_arg (kwonlyargs node) self in
  let self := visit_list visit_expr (kw_defaults node) self in
  let self := visit_opt visit_arg (kwarg node) self in
  visit_list visit_expr (defaults node) self.

(** [self.aliases.add(name)]. *)
Definition aliases_add (name : string) (self : Linter) : Linter :=
  {| errors := errors self; aliases := {[name]} ∪ aliases self |}.

(** [Linter.visit_Assign]: when the right-hand side is the name of a
    disallowed base type, every target that is a bare name goes into
    [self.aliases]; then [generic_visit] over [targets] and [value]. *)
Definition visit_Assign (targets : list expr) (value : expr)
    (self : Linter) : Linter :=
  let self :=
    match value with
    | Name id _ =>
        if bool_decide (id ∈ DISALLOWED_BASE_TYPES) then
          fold_left
            (fun self target =>
               match target with
               | Name target_id _ => aliases_add target_id self
               | _ => self
               end)
            targets self
        else self
    | _ => self
    end in
  visit_expr value (visit_list visit_expr targets self).

(** [Linter.visit_AnnAssign]; then [generic_visit] over [target],
    [annotation] and [value].  An [AnnAssign] always has an annotation, so
    the test [if node.annotation] succeeds. *)
Definition visit_AnnAssign (target ann : expr) (value : option expr)
    (self : Linter) : Linter :=
  let self := check_annotation ann self in
  visit_opt visit_expr value (visit_expr ann (visit_expr target self)).

(** [generic_visit] on a [FunctionDef] or [AsyncFunctionDef] node: the
    fields [args], [body], [decorator_list] and [returns], in this order
    (the type parameters of Python 3.12 hold expressions only and are left
    out).  [visit] is the walker on statements, for the body. *)
Definition generic_visit_def (visit : stmt → Linter → Linter)
    (fargs : arguments) (body : list stmt) (decorator_list : list expr)
    (returns : option expr) (self : Linter) : Linter :=
  let self := visit_arguments fargs self in
  let self := visit_list visit body self in
  let self := visit_list visit_expr decorator_list self in
  visit_opt visit_expr returns self.

(** [Linter.visit_FunctionDef]: the return annotation first, then the
    annotations of [node.args.args], then [generic_visit]. *)
Definition visit_FunctionDef (visit : stmt → Linter → Linter)
    (fargs : arguments) (body : list stmt) (decorator_list : list expr)
    (returns : option expr) (self : Linter) : Linter :=
  let self := visit_opt check_annotation returns self in
  let self :=
    fold_left
      (fun self a => visit_opt check_annotation (annotation a) self)
      (args fargs) self in
  generic_visit_def visit fargs body decorator_list returns self.

(** [NodeVisitor.visit] on a statement: [visit_Assign], [visit_AnnAssign]
    and [visit_FunctionDef] for their classes, [generic_visit] for every
    other one, [AsyncFunctionDef] among them. *)
Fixpoint visit (node : stmt) (self : Linter) : Linter :=
  match node with
  | Assign targets value => visit_Assign targets value self
  | AnnAssign target ann value => visit_AnnAssign target ann value self
  | FunctionDef _ fargs body decorator_list returns =>
      visit_FunctionDef visit fargs body decorator_list returns self
  | AsyncFunctionDef _ fargs body decorator_list returns =>
      generic_visit_def visit fargs body decorator_list returns self
  | ClassDef _ bases keywords body decorator_list =>
      let self := visit_list visit_expr bases self in
      let self := visit_list visit_expr keywords self in
      let self := visit_list visit body self in
      visit_list visit_expr decorator_list self
  | OtherStmt children =>
      visit_list
        (fun child self =>
           match child with
           | inl e => visit_expr e self
           | inr s => visit s self
           end)
        children self
  end.

(** [Linter.visit_Module]: [generic_visit] over the module body. *)
Definition visit_Module (node : mod_) (self : Linter) : Linter :=
  match node with
  | Module body => visit_list visit body self
  end.

(** What [main] does with a parsed tree: a fresh [Linter] visits it, and
    its [errors] are the report. *)
Definition run (tree : mod_) : list string :=
  errors (visit_Module tree Linter_init).

(** ** Auxiliary notions for the proofs *)

(** The state with the report emptied and the aliases kept. *)
Definition emptied (self : Linter) : Linter :=
  {| errors := []; aliases := aliases self |}.

(** [extends f]: [f] appends to the report entries that depend on the
    aliases only, and its aliases are those it would reach from an empty
    report and contain the old ones. *)
Definition extends (f : Linter → Linter) : Prop :=
  ∀ self,
    errors (f self) = errors self ++ errors (f (emptied self))
    ∧ aliases (f self) = aliases (f (emptied self))
    ∧ aliases self ⊆ aliases (f self).

(** [reports f]: [f] extends the report and leaves the aliases as they
    are. *)
Definition reports (f : Linter → Linter) : Prop :=
  ∀ self,
    f self = {| errors := errors self ++ errors (f (emptied self));
                aliases := aliases self |}.

(** The violations an annotation yields under a given set of aliases. *)
Definition found (al : gset string) (annotation : expr) : list string :=
  errors (check_annotation annotation {| errors := []; aliases := al |}).

(** [isinstance(node, ast.Name)]. *)
Definition is_Name (node : expr) : bool :=
  match node with
  | Name _ _ => true
  | _ => false
  end.

(** One turn of a loop that applies [record] for the elements that pass
    [test]. *)
Definition loop_step (test : string → bool) (record : Linter → Linter)
    (self : Linter) (d : string) : Linter :=
  if test d then record self else self.

(** The violations of an annotation that may be absent. *)
Definition found_opt (al : gset string) (annotation : option expr)
    : list string :=
  match annotation with
  | Some e => found al e
  | None => []
  end.

(** The tests of the [if]/[elif] chain of [check_annotation]: the node is
    an instance of none of the classes the chain handles. *)
Definition unrecognized (annotation : expr) : Prop :=
  match annotation with
  | Name _ _ | Subscript _ _ | Tuple _ | Call _ _ _ | Attribute _ _ _ => False
  | BinOp _ op _ => op ≠ BitOr
  | OtherExpr _ => True
  end.

(** The outer expression of a subscript is a name outside
    [DISALLOWED_GENERIC_TYPES] and [ALLOWED_GENERIC_TYPES], or no name at
    all. *)
Definition neither_disallowed_nor_allowed (outer : expr) : Prop :=
  match outer with
  | Name type_name _ =>
      (type_name ∉ DISALLOWED_GENERIC_TYPES)
      ∧ (type_name ∉ ALLOWED_GENERIC_TYPES)
  | _ => True
  end.

(** The parameters [visit_FunctionDef] looks at. *)
Definition only_args (fargs : arguments) : arguments :=
  {| posonlyargs := []; args := args fargs; vararg := None;
     kwonlyargs := []; kw_defaults := []; kwarg := None; defaults := [] |}.

(** ** Example modules *)

(** [AliasName = str] on line 1, [x: AliasName] on line 2. *)
Definition alias_before_annotation : mod_ :=
  Module
    [ Assign [Name "AliasName" (Some 1)] (Name "str" (Some 1));
      AnnAssign (Name "x" (Some 2)) (Name "AliasName" (Some 2)) None ].

(** [x: AliasName] on line 1, [AliasName = str] on line 2. *)
Definition annotation_before_alias : mod_ :=
  Module
    [ AnnAssign (Name "x" (Some 1)) (Name "AliasName" (Some 1)) None;
      Assign [Name "AliasName" (Some 2)] (Name "str" (Some 2)) ].

(** [def f(x: int) -> str: pass], all on line 1. *)
Definition annotated_function : mod_ :=
  Module
    [ FunctionDef "f"
        {| posonlyargs := [];
           args := [ {| arg_name := "x";
                        annotation := Some (Name "int" (Some 1)) |} ];
           vararg := None; kwonlyargs := []; kw_defaults := [];
           kwarg := None; defaults := [] |}
        [OtherStmt []] [] (Some (Name "str" (Some 1))) ].

(** [def f(x: int): pass], on line 1. *)
Definition positional_parameter : mod_ :=
  Module
    [ FunctionDef "f"
        {| posonlyargs := [];
           args := [ {| arg_name := "x";
                        annotation := Some (Name "int" (Some 1)) |} ];
           vararg := None; kwonlyargs := []; kw_defaults := [];
           kwarg := None; defaults := [] |}
        [OtherStmt []] [] None ].

(** The same function with [x: int] made keyword-only (the parameter list
    is a bare star, then [x: int]). *)
Definition keyword_only_parameter : mod_ :=
  Module
    [ FunctionDef "f"
        {| posonlyargs := []; args := []; vararg := None;
           kwonlyargs := [ {| arg_name := "x";
                              annotation := Some (Name "int" (Some 1)) |} ];
           kw_defaults := []; kwarg := None; defaults := [] |}
        [OtherStmt []] [] None ].

(** ** The walk as a sequence of events *)

(** What the walker does to the state, step by step: it classifies an
    annotation, or it records an alias. *)
Inductive event : Type :=
| Classify (annotation : expr)
| Alias (name : string).

(** The aliases [visit_Assign] records for an assignment, target by
    target. *)
Definition assigned (targets : list expr) (value : expr) : list event :=
  match value with
  | Name id _ =>
      if bool_decide (id ∈ DISALLOWED_BASE_TYPES) then
        flat_map
          (fun target =>
             match target with
             | Name target_id _ => [Alias target_id]
             | _ => []
             end)
          targets
      else []
  | _ => []
  end.

(** The annotations [visit_FunctionDef] classifies: the return annotation,
    then those of [args.args]. *)
Definition signature (fargs : arguments) (returns : option expr)
    : list event :=
  match returns with Some r => [Classify r] | None => [] end
  ++ flat_map
       (fun a =>
          match annotation a with
          | Some e => [Classify e]
          | None => []
          end)
       (args fargs).

(** The events of a statement, in the order of the walk, nested statements
    included. *)
Fixpoint events (node : stmt) : list event :=
  match node with
  | Assign targets value => assigned targets value
  | AnnAssign _ ann _ => [Classify ann]
  | FunctionDef _ fargs body _ returns =>
      signature fargs returns ++ flat_map events body
  | AsyncFunctionDef _ _ body _ _ => flat_map events body
  | ClassDef _ _ _ body _ => flat_map events body
  | OtherStmt children =>
      flat_map
        (fun child =>
           match child with
           | inl _ => []
           | inr s => events s
           end)
        children
  end.

Definition module_events (tree : mod_) : list event :=
  match tree with
  | Module body => flat_map events body
  end.

(** The state after a sequence of events. *)
Definition replay (evs : list event) (self : Linter) : Linter :=
  fold_left
    (fun self ev =>
       match ev with
       | Classify a => check_annotation a self
       | Alias name => aliases_add name self
       end)
    evs self.

(** The annotations and the alias names among events. *)
Definition classified (evs : list event) : list expr :=
  flat_map (fun ev => match ev with Classify a => [a] | Alias _ => [] end) evs.

Definition alias_names (evs : list event) : list string :=
  flat_map (fun ev => match ev with Classify _ => [] | Alias n => [n] end) evs.

(** The names an annotation can be reported for, each with the line of its
    node: the identifiers of its [Name] nodes and the dotted paths of its
    outermost [Attribute] nodes, from left to right. *)
Fixpoint reportable (node : expr) : list (option nat * string) :=
  match node with
  | Name id lineno => [(lineno, id)]
  | Attribute _ _ lineno => [(lineno, get_full_attr_name node)]
  | Subscript value slice => reportable value ++ reportable slice
  | BinOp left_ _ right_ => reportable left_ ++ reportable right_
  | Tuple elts => flat_map reportable elts
  | Call func args keywords =>
      reportable func ++ flat_map reportable args
        ++ flat_map reportable keywords
  | OtherExpr children => flat_map reportable children
  end.

(** The expression of a dotted name: [base.attr1.attr2...], every node on
    line [lineno]. *)
Definition dotted (base : string) (attrs : list string)
    (lineno : option nat) : expr :=
  fold_left (fun value attr => Attribute value attr lineno) attrs
    (Name base lineno).

(** ** The entry point *)

(** [main], after the two steps that touch the outside: [opened] is what
    opening and reading the file gave (the text of the exception, or the
    source), [ast_parse] is [ast.parse] (the text of the [SyntaxError], or
    the tree).  The result is the lines printed and the exit code handed
    to [sys.exit], [None] when [main] returns.  [main] catches nothing
    else: an exception of [ast.parse] that is no [SyntaxError] (a
    [ValueError] on a source with a null byte) and an exception of the
    walk (a [RecursionError] on a deep tree) leave it as a traceback;
    these runs are outside this definition. *)
Definition main (opened : string + string)
    (ast_parse : string → string + mod_) : list string * option nat :=
  match opened with
  | inl e => (["Ошибка при открытии файла: " +:+ e], Some 1)
  | inr source =>
      match ast_parse source with
      | inl e => (["Синтаксическая ошибка в файле: " +:+ e], Some 1)
      | inr tree =>
          let linter := visit_Module tree Linter_init in
          match errors linter with
          | [] => (["Проверка пройдена успешно!"], None)
          | _ :: _ =>
              ("Найдены ошибки:"
                 :: map (fun error => "  - " +:+ error) (errors linter),
               Some 1)
          end
      end
  end.

(** The test of [visit_Assign]: the right-hand side is a bare name, and
    that name is a disallowed base type. *)
Definition base_type_name (value : expr) : Prop :=
  match value with
  | Name id _ => id ∈ DISALLOWED_BASE_TYPES
  | _ => False
  end.

(** The parameter of a subscript is a bare name of a disallowed generic or
    base type. *)
Definition bare_disallowed (slice_node : expr) : Prop :=
  match slice_node with
  | Name id _ => id ∈ DISALLOWED_GENERIC_TYPES ∨ id ∈ DISALLOWED_BASE_TYPES
  | _ => False
  end.

(** A module with no annotation: an assignment of a base type name, and
    [def g(y): z = bytes] inside a class. *)
Definition unannotated_module : mod_ :=
  Module
    [ Assign [Name "Text" (Some 1)] (Name "str" (Some 1));
      ClassDef "C" [] []
        [ FunctionDef "g"
            {| posonlyargs := [];
               args := [ {| arg_name := "y"; annotation := None |} ];
               vararg := None; kwonlyargs := []; kw_defaults := [];
               kwarg := None; defaults := [] |}
            [ Assign [Name "z" (Some 4)] (Name "bytes" (Some 4)) ] [] None ]
        [] ].

(** ** The statements of a module in the order of the walk *)

(** The statements at and below a statement, itself first, then those of
    its body (or of its children, for a compound statement) from left to
    right: the order in which [NodeVisitor.visit] reaches them. *)
Fixpoint walked (node : stmt) : list stmt :=
  node ::
  match node with
  | Assign _ _ => []
  | AnnAssign _ _ _ => []
  | FunctionDef _ _ body _ _ => flat_map walked body
  | AsyncFunctionDef _ _ body _ _ => flat_map walked body
  | ClassDef _ _ _ body _ => flat_map walked body
  | OtherStmt children =>
      flat_map
        (fun child =>
           match child with
           | inl _ => []
           | inr s => walked s
           end)
        children
  end.

Definition module_statements (tree : mod_) : list stmt :=
  match tree with
  | Module body => flat_map walked body
  end.

(** What the [visit_] method of a statement does itself, before
    [generic_visit] goes on to the statements below: [visit_Assign] records
    aliases, [visit_AnnAssign] classifies the annotation,
    [visit_FunctionDef] the return annotation and then those of
    [args.args]; the other classes have no method. *)
Definition own_events (node : stmt) : list event :=
  match node with
  | Assign targets value => assigned targets value
  | AnnAssign _ ann _ => [Classify ann]
  | FunctionDef _ fargs _ _ returns => signature fargs returns
  | AsyncFunctionDef _ _ _ _ _ => []
  | ClassDef _ _ _ _ _ => []
  | OtherStmt _ => []
  end.

(** The report of a sequence of events: the violations of each classified
    annotation, one after the other, each found under the aliases recorded
    before it; [al] are the aliases at the start. *)
Fixpoint report_of (evs : list event) (al : gset string) : list string :=
  match evs with
  | [] => []
  | Classify a :: evs => found al a ++ report_of evs al
  | Alias name :: evs => report_of evs ({[name]} ∪ al)
  end.

(** [AliasName = str] on line 1, then a class whose field on line 3 is
    annotated [AliasName]. *)
Definition alias_then_class_field : mod_ :=
  Module
    [ Assign [Name "AliasName" (Some 1)] (Name "str" (Some 1));
      ClassDef "C" [] []
        [ AnnAssign (Name "x" (Some 3)) (Name "AliasName" (Some 3)) None ]
        [] ].

(** ** The classifier under the interpreter's recursion limit *)

(** A call of a Python function takes a frame of the interpreter's stack,
    and the interpreter raises [RecursionError] when the limit is reached.
    [frames] is the number of frames that may still be taken when the
    function is called, [below] what is left for the calls it makes;
    [None] stands for the [RecursionError], which nothing in the linter
    catches.  The built-ins ([isinstance], [getattr], [str.endswith],
    [str.join], the set and list operations) take no frame. *)
Definition call {A : Type} (frames : nat) (body : nat → option A)
    : option A :=
  match frames with
  | 0 => None
  | S below => body below
  end.

Definition record_error_in (frames : nat) (lineno : option nat)
    (message : string) (self : Linter) : option Linter :=
  call frames (fun _ => Some (record_error lineno message self)).

Definition has_parameters_in (frames : nat) (slice_node : expr)
    : option bool :=
  call frames (fun _ => Some (has_parameters slice_node)).

Definition get_full_attr_name_in (frames : nat) (node : expr)
    : option string :=
  call frames (fun _ => Some (get_full_attr_name node)).

(** A [for] loop whose body may raise. *)
Definition for_each {A : Type} (step : A → Linter → option Linter)
    (l : list A) (self : Linter) : option Linter :=
  fold_left
    (fun acc x => match acc with Some s => step x s | None => None end)
    l (Some self).

(** [Linter.check_annotation] with the frames counted. *)
Fixpoint check_annotation_in (frames : nat) (annotation : expr)
    (self : Linter) : option Linter :=
  match frames with
  | 0 => None
  | S below =>
      match annotation with
      | Name id lineno =>
          if bool_decide (id ∈ aliases self) then
            record_error_in below lineno (rule_message AliasLeak id) self
          else if bool_decide (id ∈ DISALLOWED_BASE_TYPES) then
            record_error_in below lineno (rule_message BarePrimitive id) self
          else if bool_decide (id ∈ DISALLOWED_GENERIC_TYPES) then
            record_error_in below lineno
              (rule_message UnparameterizedGeneric id) self
          else Some self
      | Subscript outer_type inner_annotation =>
          match outer_type with
          | Name type_name lineno =>
              if bool_decide (type_name ∈ DISALLOWED_GENERIC_TYPES) then
                match has_parameters_in below inner_annotation with
                | None => None
                | Some parameterized =>
                    match
                      if negb parameterized then
                        record_error_in below lineno
                          (rule_message UnparameterizedGeneric type_name)
                          self
                      else Some self
                    with
                    | None => None
                    | Some self =>
                        check_annotation_in below inner_annotation self
                    end
                end
              else if bool_decide (type_name ∈ ALLOWED_GENERIC_TYPES) then
                check_annotation_in below inner_annotation self
              else
                check_annotation_in below inner_annotation self
          | _ =>
              match check_annotation_in below outer_type self with
              | None => None
              | Some self => check_annotation_in below inner_annotation self
              end
          end
      | BinOp left_ BitOr right_ =>
          match check_annotation_in below left_ self with
          | None => None
          | Some self => check_annotation_in below right_ self
          end
      | Tuple elts => for_each (check_annotation_in below) elts self
      | Call _ args _ => for_each (check_annotation_in below) args self
      | Attribute _ _ lineno =>
          match get_full_attr_name_in below annotation with
          | None => None
          | Some full_name =>
              for_each
                (fun disallowed self =>
                   if endswith full_name disallowed then
                     record_error_in below lineno
                       (rule_message BarePrimitive full_name) self
                   else Some self)
                DISALLOWED_BASE_TYPES self
          end
      | _ => Some self
      end
  end.

(** How deep the calls of [check_annotation] nest on an annotation: one
    more than on the deepest expression it goes into. *)
Fixpoint nesting (node : expr) : nat :=
  match node with
  | Name _ _ => 1
  | Attribute _ _ _ => 1
  | Subscript value slice => S (nesting value `max` nesting slice)
  | BinOp left_ _ right_ => S (nesting left_ `max` nesting right_)
  | Tuple elts => S (foldr (fun e n => nesting e `max` n) 0 elts)
  | Call _ args _ => S (foldr (fun e n => nesting e `max` n) 0 args)
  | OtherExpr _ => 1
  end.

(** The union [A | A | ... | A] with [S n] operands, as the parser builds
    it: nested to the left. *)
Fixpoint union_of (n : nat) : expr :=
  match n with
  | 0 => Name "A" (Some 1)
  | S k => BinOp (union_of k) BitOr (Name "A" (Some 1))
  end.

(** ** Induction over syntax trees *)

Section expr_nested_ind.
  Variable P : expr → Prop.
  Hypothesis HName : ∀ id lineno, P (Name id lineno).
  Hypothesis HAttribute :
    ∀ value attr lineno, P value → P (Attribute value attr lineno).
  Hypothesis HSubscript :
    ∀ value slice, P value → P slice → P (Subscript value slice).
  Hypothesis HBinOp :
    ∀ left_ op right_, P left_ → P right_ → P (BinOp left_ op right_).
  Hypothesis HTuple : ∀ elts, Forall P elts → P (Tuple elts).
  Hypothesis HCall :
    ∀ func args keywords,
      P func → Forall P args → Forall P keywords → P (Call func args keywords).
  Hypothesis HOtherExpr : ∀ children, Forall P children → P (OtherExpr children).

Fixpoint expr_nested_ind (e : expr) : P e :=
    let all :=
      fix all (l : list expr) : Forall P l :=
        match l with
        | [] => @List.Forall_nil _ P
        | x :: l' => @List.Forall_cons _ P x l' (expr_nested_ind x) (all l')
        end in
    match e with
    | Name id lineno => HName id lineno
    | Attribute value attr lineno =>
        HAttribute value attr lineno (expr_nested_ind value)
    | Subscript value slice =>
        HSubscript value slice (expr_nested_ind value) (expr_nested_ind slice)
    | BinOp left_ op right_ =>
        HBinOp left_ op right_ (expr_nested_ind left_) (expr_nested_ind right_)
    | Tuple elts => HTuple elts (all elts)
    | Call func args keywords =>
        HCall func args keywords (expr_nested_ind func) (all args) (all keywords)
    | OtherExpr children => HOtherExpr children (all children)
    end.
End expr_nested_ind.

(** On a child of a statement the property is asked of statements only. *)
Definition on_stmt (P : stmt → Prop) (child : expr + stmt) : Prop :=
  match child with
  | inl _ => True
  | inr s => P s
  end.

Section stmt_nested_ind.
  Variable P : stmt → Prop.
  Hypothesis HAssign : ∀ targets value, P (Assign targets value).
  Hypothesis HAnnAssign : ∀ target ann value, P (AnnAssign target ann value).
  Hypothesis HFunctionDef :
    ∀ name fargs body decorator_list returns,
      Forall P body → P (FunctionDef name fargs body decorator_list returns).
  Hypothesis HAsyncFunctionDef :
    ∀ name fargs body decorator_list returns,
      Forall P body →
      P (AsyncFunctionDef name fargs body decorator_list returns).
  Hypothesis HClassDef :
    ∀ name bases keywords body decorator_list,
      Forall P body → P (ClassDef name bases keywords body decorator_list).
  Hypothesis HOtherStmt :
    ∀ children, Forall (on_stmt P) children → P (OtherStmt children).

Fixpoint stmt_nested_ind (s : stmt) : P s :=
    let all :=
      fix all (l : list stmt) : Forall P l :=
        match l with
        | [] => @List.Forall_nil _ P
        | x :: l' => @List.Forall_cons _ P x l' (stmt_nested_ind x) (all l')
        end in
    match s with
    | Assign targets value => HAssign targets value
    | AnnAssign target ann value => HAnnAssign target ann value
    | FunctionDef name fargs body decorator_list returns =>
        HFunctionDef name fargs body decorator_list returns (all body)
    | AsyncFunctionDef name fargs body decorator_list returns =>
        HAsyncFunctionDef name fargs body decorator_list returns (all body)
    | ClassDef name bases keywords body decorator_list =>
        HClassDef name bases keywords body decorator_list (all body)
    | OtherStmt children =>
        HOtherStmt children
          ((fix each (l : list (expr + stmt)) : Forall (on_stmt P) l :=
              match l with
              | [] => @List.Forall_nil _ (on_stmt P)
              | c :: l' =>
                  @List.Forall_cons _ (on_stmt P) c l'
                    match c return on_stmt P c with
                    | inl _ => I
                    | inr x => stmt_nested_ind x
                    end
                    (each l')
              end) children)
    end.
End stmt_nested_ind.

(** ** How the operations act on the state *)

Lemma Linter_eq (s1 s2 : Linter) :
  errors s1 = errors s2 → aliases s1 = aliases s2 → s1 = s2.
Proof. destruct s1, s2; simpl; intros -> ->; reflexivity. Qed.

Lemma reports_errors f self :
  reports f → errors (f self) = errors self ++ errors (f (emptied self)).
Proof. intros H. rewrite (H self) at 1. reflexivity. Qed.

Lemma reports_aliases f self : reports f → aliases (f self) = aliases self.
Proof. intros H. rewrite (H self). reflexivity. Qed.

Lemma reports_extends f : reports f → extends f.
Proof.
  intros H self. split; [by apply reports_errors|].
  rewrite (reports_aliases f self H), (reports_aliases f (emptied self) H).
  split; [done | set_solver].
Qed.

Lemma reports_id : reports (fun self => self).
Proof. intros self. apply Linter_eq; simpl; [by rewrite app_nil_r | done]. Qed.

Lemma reports_record_error lineno message :
  reports (record_error lineno message).
Proof. intros self. reflexivity. Qed.

Lemma emptied_reports f self : reports f → emptied (f self) = emptied self.
Proof.
  intros H. apply Linter_eq; simpl; [done | by apply reports_aliases].
Qed.

Lemma reports_compose f g :
  reports f → reports g → reports (fun self => g (f self)).
Proof.
  intros Hf Hg self. apply Linter_eq; simpl.
  - rewrite (reports_errors g (f self) Hg), (reports_errors f self Hf).
    rewrite (reports_errors g (f (emptied self)) Hg).
    rewrite !(emptied_reports f) by done.
    by rewrite <- app_assoc.
  - by rewrite (reports_aliases g _ Hg), (reports_aliases f _ Hf).
Qed.

Lemma reports_visit_list {A} (visit : A → Linter → Linter) (nodes : list A) :
  Forall (fun node => reports (visit node)) nodes →
  reports (visit_list visit nodes).
Proof.
  induction 1 as [|node nodes Hnode _ IH]; [apply reports_id|].
  exact (reports_compose _ _ Hnode IH).
Qed.

Lemma reports_visit_opt {A} (visit : A → Linter → Linter) (node : option A) :
  (∀ n, node = Some n → reports (visit n)) → reports (visit_opt visit node).
Proof.
  destruct node as [n|]; [intros H; by apply H | intros _; apply reports_id].
Qed.

Lemma extends_id : extends (fun self => self).
Proof. apply reports_extends, reports_id. Qed.

Lemma extends_compose f g :
  extends f → extends g → extends (fun self => g (f self)).
Proof.
  intros Hf Hg self.
  destruct (Hf self) as (Hfe & Hfa & Hfs).
  destruct (Hg (f self)) as (Hge & Hga & Hgs).
  destruct (Hg (f (emptied self))) as (Hge' & Hga' & _).
  assert (emptied (f self) = emptied (f (emptied self))) as Hc
    by (by apply Linter_eq).
  split_and!.
  - rewrite Hge, Hfe, Hge', Hc, <- app_assoc. done.
  - by rewrite Hga, Hga', Hc.
  - by transitivity (aliases (f self)).
Qed.

Lemma extends_visit_list {A} (visit : A → Linter → Linter) (nodes : list A) :
  Forall (fun node => extends (visit node)) nodes →
  extends (visit_list visit nodes).
Proof.
  induction 1 as [|node nodes Hnode _ IH]; [apply extends_id|].
  exact (extends_compose _ _ Hnode IH).
Qed.

(** Visiting an expression changes nothing: no [visit_] method fires below
    an expression. *)
Lemma visit_list_id {A} (visit : A → Linter → Linter) (nodes : list A) self :
  Forall (fun node => ∀ self, visit node self = self) nodes →
  visit_list visit nodes self = self.
Proof.
  intros H. revert self. induction H as [|node nodes Hnode _ IH]; intros self.
  - reflexivity.
  - unfold visit_list in *. simpl. rewrite Hnode. apply IH.
Qed.

Lemma visit_expr_id (node : expr) (self : Linter) : visit_expr node self = self.
Proof.
  revert self. induction node using expr_nested_ind; intros self; simpl;
    rewrite ?visit_list_id by assumption; congruence.
Qed.

Lemma visit_exprs_id (nodes : list expr) self :
  visit_list visit_expr nodes self = self.
Proof. apply visit_list_id, Forall_forall. intros; apply visit_expr_id. Qed.

Lemma visit_opt_expr_id (node : option expr) self :
  visit_opt visit_expr node self = self.
Proof. destruct node; [apply visit_expr_id | reflexivity]. Qed.

Lemma visit_arg_id (node : arg) self : visit_arg node self = self.
Proof. apply visit_opt_expr_id. Qed.

Lemma visit_arguments_id (node : arguments) self :
  visit_arguments node self = self.
Proof.
  unfold visit_arguments.
  assert (∀ l s, visit_list visit_arg l s = s) as Hl.
  { intros l s. apply visit_list_id, Forall_forall. intros; apply visit_arg_id. }
  assert (∀ o s, visit_opt visit_arg o s = s) as Ho.
  { intros [a|] s; [apply visit_arg_id | reflexivity]. }
  by rewrite !Hl, !Ho, !visit_exprs_id.
Qed.

(** With the expression visits gone, each statement class reduces to its
    own [visit_] method followed by the walk over its body. *)
Lemma generic_visit_def_body visit fargs body decorator_list returns self :
  generic_visit_def visit fargs body decorator_list returns self
  = visit_list visit body self.
Proof.
  unfold generic_visit_def.
  by rewrite visit_arguments_id, visit_exprs_id, visit_opt_expr_id.
Qed.

Lemma visit_AnnAssign_check target ann value self :
  visit (AnnAssign target ann value) self = check_annotation ann self.
Proof.
  simpl. unfold visit_AnnAssign. by rewrite !visit_expr_id, visit_opt_expr_id.
Qed.

Lemma visit_AsyncFunctionDef_body name fargs body decorator_list returns self :
  visit (AsyncFunctionDef name fargs body decorator_list returns) self
  = visit_list visit body self.
Proof. apply generic_visit_def_body. Qed.

Lemma visit_ClassDef_body name bases keywords body decorator_list self :
  visit (ClassDef name bases keywords body decorator_list) self
  = visit_list visit body self.
Proof. simpl. by rewrite !visit_exprs_id. Qed.

Lemma visit_list_app {A} (visit : A → Linter → Linter) (l1 l2 : list A) self :
  visit_list visit (l1 ++ l2) self
  = visit_list visit l2 (visit_list visit l1 self).
Proof. apply fold_left_app. Qed.

(** The classifier only reports. *)
Lemma reports_check_annotation (annotation : expr) :
  reports (check_annotation annotation).
Proof.
  induction annotation as
    [id lineno | value attr lineno IH | value slice IHv IHs
    | left_ op right_ IHl IHr | elts IH | func args keywords _ IH _
    | children _] using expr_nested_ind.
  - intros self. simpl.
    repeat case_bool_decide; try reflexivity;
      apply Linter_eq; simpl; by rewrite ?app_nil_r.
  - change (check_annotation (Attribute value attr lineno))
      with (visit_list
              (fun disallowed self =>
                 if endswith (get_full_attr_name (Attribute value attr lineno))
                      disallowed
                 then record_error lineno (rule_message BarePrimitive
                        (get_full_attr_name (Attribute value attr lineno))) self
                 else self)
              DISALLOWED_BASE_TYPES).
    apply reports_visit_list, Forall_forall. intros d _.
    destruct (endswith _ d); [apply reports_record_error | apply reports_id].
  - destruct value; simpl;
      try (exact (reports_compose _ _ IHv IHs)).
    repeat case_bool_decide; try exact IHs.
    destruct (has_parameters slice); simpl; [exact IHs|].
    exact (reports_compose _ _ (reports_record_error _ _) IHs).
  - destruct op; simpl; try apply reports_id.
    exact (reports_compose _ _ IHl IHr).
  - simpl. by apply (reports_visit_list check_annotation).
  - simpl. by apply (reports_visit_list check_annotation).
  - apply reports_id.
Qed.

Lemma check_annotation_aliases annotation self :
  aliases (check_annotation annotation self) = aliases self.
Proof. apply reports_aliases, reports_check_annotation. Qed.

Lemma check_annotation_found annotation self :
  check_annotation annotation self
  = {| errors := errors self ++ found (aliases self) annotation;
       aliases := aliases self |}.
Proof. apply reports_check_annotation. Qed.

Lemma check_option_found (annotation : option expr) self :
  visit_opt check_annotation annotation self
  = {| errors := errors self ++ found_opt (aliases self) annotation;
       aliases := aliases self |}.
Proof.
  destruct annotation as [e|]; simpl; [apply check_annotation_found|].
  apply Linter_eq; simpl; [by rewrite app_nil_r | done].
Qed.

Lemma check_args_found (l : list arg) self :
  fold_left (fun self a => visit_opt check_annotation (annotation a) self)
    l self
  = {| errors :=
         errors self
           ++ flat_map (fun a => found_opt (aliases self) (annotation a)) l;
       aliases := aliases self |}.
Proof.
  revert self. induction l as [|a l IH]; intros self; simpl.
  - apply Linter_eq; simpl; [by rewrite app_nil_r | done].
  - rewrite IH, check_option_found. simpl. by rewrite <- app_assoc.
Qed.

(** [visit_FunctionDef]: the violations of the signature are appended, then
    the body is walked. *)
Lemma visit_FunctionDef_found name fargs body decorator_list returns self :
  visit (FunctionDef name fargs body decorator_list returns) self
  = visit_list visit body
      {| errors :=
           errors self ++ found_opt (aliases self) returns
             ++ flat_map (fun a => found_opt (aliases self) (annotation a))
                  (args fargs);
         aliases := aliases self |}.
Proof.
  simpl. unfold visit_FunctionDef.
  rewrite generic_visit_def_body, check_args_found, check_option_found.
  simpl. by rewrite <- app_assoc.
Qed.

(** The alias tracker only adds names. *)
Lemma extends_visit_Assign targets value :
  extends (visit_Assign targets value).
Proof.
  intros self. unfold visit_Assign.
  rewrite !visit_expr_id, !visit_exprs_id.
  destruct value; try apply (extends_id self).
  case_bool_decide; [|apply (extends_id self)].
  apply (extends_visit_list
           (fun target self =>
              match target with
              | Name target_id _ => aliases_add target_id self
              | _ => self
              end)).
  apply Forall_forall. intros target _.
  destruct target; try apply extends_id.
  intros s; simpl. rewrite app_nil_r.
  split_and!; [done | done | apply union_subseteq_r].
Qed.

(** Every statement extends the report and the aliases. *)
Lemma extends_visit (node : stmt) : extends (visit node).
Proof.
  induction node as
    [targets value | target ann value
    | name fargs body decorator_list returns IH
    | name fargs body decorator_list returns IH
    | name bases keywords body decorator_list IH
    | children IH] using stmt_nested_ind.
  - apply extends_visit_Assign.
  - intros self. rewrite !visit_AnnAssign_check.
    apply reports_extends, reports_check_annotation.
  - intros self. rewrite !visit_FunctionDef_found.
    apply (extends_compose
             (fun self =>
                {| errors :=
                     errors self ++ found_opt (aliases self) returns
                       ++ flat_map
                            (fun a => found_opt (aliases self) (annotation a))
                            (args fargs);
                   aliases := aliases self |})
             (visit_list visit body)).
    + apply reports_extends. intros s. apply Linter_eq; simpl; done.
    + by apply extends_visit_list.
  - intros self. rewrite !visit_AsyncFunctionDef_body.
    by apply extends_visit_list.
  - intros self. rewrite !visit_ClassDef_body. by apply extends_visit_list.
  - simpl. apply (extends_visit_list
      (fun child self =>
         match child with
         | inl e => visit_expr e self
         | inr s => visit s self
         end)).
    eapply Forall_impl; [exact IH|]. intros [e|s] H; simpl in *.
    + intros self. rewrite !visit_expr_id. apply extends_id.
    + exact H.
Qed.

Lemma extends_visit_body (body : list stmt) : extends (visit_list visit body).
Proof. apply extends_visit_list, Forall_forall. intros; apply extends_visit. Qed.

(** ** Strings *)

Lemma list_ascii_of_string_app (s1 s2 : string) :
  String.list_ascii_of_string (s1 +:+ s2)
  = String.list_ascii_of_string s1 ++ String.list_ascii_of_string s2.
Proof. induction s1 as [|c s1 IH]; simpl; [done | by rewrite IH]. Qed.

(** [endswith s suffix] holds exactly when [s] is some string followed by
    [suffix]. *)
Lemma endswith_spec (s suffix : string) :
  endswith s suffix = true ↔ ∃ front, s = front +:+ suffix.
Proof.
  unfold endswith. rewrite bool_decide_eq_true. split.
  - intros [front H]. exists (String.string_of_list_ascii front).
    rewrite <- (String.string_of_list_ascii_of_string s), H.
    rewrite <- (String.string_of_list_ascii_of_string (_ +:+ _)).
    by rewrite list_ascii_of_string_app,
      String.list_ascii_of_string_of_list_ascii.
  - intros [front ->]. exists (String.list_ascii_of_string front).
    apply list_ascii_of_string_app.
Qed.

Lemma string_app_assoc (s1 s2 s3 : string) :
  (s1 +:+ s2) +:+ s3 = s1 +:+ (s2 +:+ s3).
Proof.
  induction s1 as [|c s1 IH]; [done|].
  change (String c ((s1 +:+ s2) +:+ s3) = String c (s1 +:+ s2 +:+ s3)).
  by f_equal.
Qed.

Lemma concat_snoc (sep : string) (l : list string) (x : string) :
  l ≠ [] →
  String.concat sep (l ++ [x]) = String.concat sep l +:+ sep +:+ x.
Proof.
  induction l as [|y [|z l] IH]; intros Hl; [done | done |].
  change (String.concat sep ((y :: z :: l) ++ [x]))
    with (y +:+ sep +:+ String.concat sep ((z :: l) ++ [x])).
  rewrite IH by done.
  change (String.concat sep (y :: z :: l))
    with (y +:+ sep +:+ String.concat sep (z :: l)).
  by rewrite !string_app_assoc.
Qed.

(** The dotted path: the path of the value, a dot and the attribute; the
    identifier alone for a name; the attribute alone over an expression
    that is neither a name nor an attribute. *)
Lemma get_full_attr_name_Attribute value attr lineno :
  get_full_attr_name (Attribute value attr lineno)
  = match attr_names value with
    | [] => attr
    | _ => get_full_attr_name value +:+ "." +:+ attr
    end.
Proof.
  unfold get_full_attr_name. simpl.
  destruct (attr_names value) as [|n ns] eqn:E; [done|].
  apply concat_snoc. intros H. apply (f_equal length) in H.
  rewrite length_rev in H. discriminate H.
Qed.

(** No disallowed base type name ends with another one, so a path ends
    with at most one of them. *)
Lemma DISALLOWED_BASE_TYPES_exclusive (s d1 d2 : string) :
  d1 ∈ DISALLOWED_BASE_TYPES → d2 ∈ DISALLOWED_BASE_TYPES →
  endswith s d1 = true → endswith s d2 = true → d1 = d2.
Proof.
  intros H1 H2 E1 E2.
  assert (endswith d2 d1 = true ∨ endswith d1 d2 = true) as Hor.
  { unfold endswith in *. rewrite bool_decide_eq_true in E1, E2.
    rewrite !bool_decide_eq_true. eapply suffix_weak_total; eassumption. }
  assert (Forall (fun a => Forall (fun b =>
            endswith a b = true → a = b) DISALLOWED_BASE_TYPES)
            DISALLOWED_BASE_TYPES) as Htable.
  { repeat constructor; try (vm_compute; discriminate). }
  rewrite Forall_forall in Htable.
  destruct Hor as [E|E].
  - pose proof (Htable d2 H2) as H. rewrite Forall_forall in H.
    symmetry. by apply H.
  - pose proof (Htable d1 H1) as H. rewrite Forall_forall in H.
    by apply H.
Qed.

Lemma NoDup_DISALLOWED_BASE_TYPES : NoDup DISALLOWED_BASE_TYPES.
Proof. apply (bool_decide_unpack _). by vm_compute. Qed.

(** A loop that records the same entry for every element satisfying a test
    that at most one element satisfies. *)
Lemma loop_none (test : string → bool) (record : Linter → Linter)
    (l : list string) self :
  (∀ d, d ∈ l → test d = false) →
  fold_left (loop_step test record) l self = self.
Proof.
  revert self. induction l as [|d l IH]; intros self H; [done|].
  simpl. unfold loop_step at 2. rewrite (H d) by left.
  apply IH. intros d' Hd'. apply H. by right.
Qed.

Lemma loop_at_most_one (test : string → bool) (record : Linter → Linter)
    (l : list string) self :
  NoDup l →
  (∀ d1 d2, d1 ∈ l → d2 ∈ l → test d1 = true → test d2 = true → d1 = d2) →
  fold_left (loop_step test record) l self
  = if existsb test l then record self else self.
Proof.
  intros Hnd. revert self.
  induction Hnd as [|d l Hd Hnd IH]; intros self Hex; [done|].
  simpl. unfold loop_step at 2. destruct (test d) eqn:Ed; simpl.
  - apply loop_none. intros d' Hd'.
    destruct (test d') eqn:Ed'; [|done].
    assert (d = d') by (apply Hex; [left | by right | done | done]).
    by subst.
  - apply IH. intros d1 d2 H1 H2. apply Hex; by right.
Qed.

(** The [Attribute] branch of [check_annotation]: one entry when the
    dotted path ends with a disallowed base type name, none otherwise. *)
Lemma check_annotation_Attribute value attr lineno self :
  let full_name := get_full_attr_name (Attribute value attr lineno) in
  check_annotation (Attribute value attr lineno) self
  = if existsb (endswith full_name) DISALLOWED_BASE_TYPES
    then record_error lineno (rule_message BarePrimitive full_name) self
    else self.
Proof.
  intros full_name.
  apply (loop_at_most_one (endswith full_name)
           (record_error lineno (rule_message BarePrimitive full_name))).
  - apply NoDup_DISALLOWED_BASE_TYPES.
  - intros d1 d2. apply DISALLOWED_BASE_TYPES_exclusive.
Qed.

(** Python iterates over the set [DISALLOWED_BASE_TYPES] in an order of its
    own; the loop of the [Attribute] branch gives the same state for every
    order. *)
Lemma existsb_Permutation {A} (f : A → bool) (l1 l2 : list A) :
  l1 ≡ₚ l2 → existsb f l1 = existsb f l2.
Proof.
  intros Hp. apply eq_true_iff_eq. rewrite !existsb_exists.
  split; intros (x & Hx & Hf); exists x; (split; [|done]);
    apply list_elem_of_In; apply list_elem_of_In in Hx.
  - by rewrite <- Hp.
  - by rewrite Hp.
Qed.

Lemma Attribute_loop_any_order (order : list string) full_name lineno self :
  order ≡ₚ DISALLOWED_BASE_TYPES →
  fold_left
    (fun self disallowed =>
       if endswith full_name disallowed then
         record_error lineno (rule_message BarePrimitive full_name) self
       else self)
    order self
  = if existsb (endswith full_name) DISALLOWED_BASE_TYPES
    then record_error lineno (rule_message BarePrimitive full_name) self
    else self.
Proof.
  intros Hp. rewrite <- (existsb_Permutation _ _ _ Hp).
  apply (loop_at_most_one (endswith full_name)
           (record_error lineno (rule_message BarePrimitive full_name))).
  - rewrite Hp. apply NoDup_DISALLOWED_BASE_TYPES.
  - intros d1 d2. rewrite !Hp. apply DISALLOWED_BASE_TYPES_exclusive.
Qed.

(** ** The branches of the classifier *)

Lemma DISALLOWED_GENERIC_not_BASE (name : string) :
  name ∈ DISALLOWED_GENERIC_TYPES → name ∉ DISALLOWED_BASE_TYPES.
Proof.
  assert (Forall (fun g => g ∉ DISALLOWED_BASE_TYPES)
            DISALLOWED_GENERIC_TYPES) as H
    by (apply (bool_decide_unpack _); by vm_compute).
  rewrite Forall_forall in H. apply H.
Qed.

Lemma ALLOWED_GENERIC_not_DISALLOWED (name : string) :
  name ∈ ALLOWED_GENERIC_TYPES → name ∉ DISALLOWED_GENERIC_TYPES.
Proof.
  assert (Forall (fun g => g ∉ DISALLOWED_GENERIC_TYPES)
            ALLOWED_GENERIC_TYPES) as H
    by (apply (bool_decide_unpack _); by vm_compute).
  rewrite Forall_forall in H. apply H.
Qed.

Lemma check_Name_alias id lineno self :
  id ∈ aliases self →
  check_annotation (Name id lineno) self
  = record_error lineno (rule_message AliasLeak id) self.
Proof. intros H. simpl. by rewrite bool_decide_eq_true_2. Qed.

Lemma check_Name_base id lineno self :
  id ∉ aliases self → id ∈ DISALLOWED_BASE_TYPES →
  check_annotation (Name id lineno) self
  = record_error lineno (rule_message BarePrimitive id) self.
Proof.
  intros Ha Hb. simpl.
  by rewrite (bool_decide_eq_false_2 _ Ha), (bool_decide_eq_true_2 _ Hb).
Qed.

Lemma check_Name_generic id lineno self :
  id ∉ aliases self → id ∈ DISALLOWED_GENERIC_TYPES →
  check_annotation (Name id lineno) self
  = record_error lineno (rule_message UnparameterizedGeneric id) self.
Proof.
  intros Ha Hg. simpl.
  rewrite (bool_decide_eq_false_2 _ Ha).
  rewrite (bool_decide_eq_false_2 _ (DISALLOWED_GENERIC_not_BASE _ Hg)).
  by rewrite (bool_decide_eq_true_2 _ Hg).
Qed.

Lemma check_Name_accepted id lineno self :
  id ∉ aliases self → id ∉ DISALLOWED_BASE_TYPES →
  id ∉ DISALLOWED_GENERIC_TYPES →
  check_annotation (Name id lineno) self = self.
Proof.
  intros Ha Hb Hg. simpl.
  by rewrite (bool_decide_eq_false_2 _ Ha), (bool_decide_eq_false_2 _ Hb),
    (bool_decide_eq_false_2 _ Hg).
Qed.

Lemma has_parameters_Name id lineno :
  has_parameters (Name id lineno) = false
  ↔ id ∈ DISALLOWED_GENERIC_TYPES ∨ id ∈ DISALLOWED_BASE_TYPES.
Proof.
  unfold has_parameters. rewrite negb_false_iff, orb_true_iff.
  by rewrite !bool_decide_eq_true.
Qed.

Lemma check_Subscript_generic type_name lineno inner self :
  type_name ∈ DISALLOWED_GENERIC_TYPES →
  check_annotation (Subscript (Name type_name lineno) inner) self
  = check_annotation inner
      (if has_parameters inner then self
       else record_error lineno
              (rule_message UnparameterizedGeneric type_name) self).
Proof.
  intros Hg. simpl. rewrite (bool_decide_eq_true_2 _ Hg).
  by destruct (has_parameters inner).
Qed.

Lemma check_Subscript_name type_name lineno inner self :
  type_name ∉ DISALLOWED_GENERIC_TYPES →
  check_annotation (Subscript (Name type_name lineno) inner) self
  = check_annotation inner self.
Proof.
  intros Hg. simpl. rewrite (bool_decide_eq_false_2 _ Hg).
  by case_bool_decide.
Qed.

Lemma check_Subscript_other outer inner self :
  is_Name outer = false →
  check_annotation (Subscript outer inner) self
  = check_annotation inner (check_annotation outer self).
Proof. by destruct outer. Qed.

Lemma check_annotations_found (elts : list expr) self :
  fold_left (fun self elt => check_annotation elt self) elts self
  = {| errors := errors self ++ flat_map (found (aliases self)) elts;
       aliases := aliases self |}.
Proof.
  revert self. induction elts as [|e elts IH]; intros self; simpl.
  - apply Linter_eq; simpl; [by rewrite app_nil_r | done].
  - rewrite IH, check_annotation_found. simpl. by rewrite <- app_assoc.
Qed.

(** The three templates differ before the name they quote, so a message
    determines its rule. *)
Lemma rule_message_inj r1 r2 name1 name2 :
  rule_message r1 name1 = rule_message r2 name2 → r1 = r2.
Proof. destruct r1, r2; simpl; intros H; try done; discriminate H. Qed.

Lemma violation_rule_inj lineno r1 r2 name1 name2 :
  violation lineno r1 name1 = violation lineno r2 name2 → r1 = r2.
Proof.
  unfold violation, error_line. intros H.
  do 3 apply String.app_inj in H. by apply rule_message_inj in H.
Qed.

(** [visit_Assign] records every bare-name target of an assignment from a
    disallowed base type name. *)
Lemma visit_Assign_adds targets p lp a la self :
  p ∈ DISALLOWED_BASE_TYPES → Name a la ∈ targets →
  a ∈ aliases (visit_Assign targets (Name p lp) self).
Proof.
  intros Hp Ht. unfold visit_Assign.
  rewrite visit_expr_id, visit_exprs_id, (bool_decide_eq_true_2 _ Hp).
  assert (∀ ts s, a ∈ aliases s ∨ Name a la ∈ ts →
    a ∈ aliases
          (fold_left
             (fun self target =>
                match target with
                | Name target_id _ => aliases_add target_id self
                | _ => self
                end) ts s)) as H.
  { induction ts as [|t ts IH]; intros s [Hs|Hin]; simpl.
    - done.
    - by apply elem_of_nil in Hin.
    - apply IH. left. destruct t; simpl; try done.
      apply elem_of_union. by right.
    - apply elem_of_cons in Hin as [<-|Hin].
      + apply IH. left. simpl. apply elem_of_union. left.
        by apply elem_of_singleton.
      + apply IH. by right. }
  apply H. by right.
Qed.

(** ** The claims about the classifier *)

(** C3, as stated, fails: [bytes[X]] yields no violation, although the bare
    name [bytes] is one; the outer name of the subscript is not
    classified. *)
Lemma C3_outer_base_type_not_flagged :
  errors (check_annotation
            (Subscript (Name "bytes" (Some 1)) (Name "X" (Some 1)))
            Linter_init)
  = []
  ∧ errors (check_annotation (Name "bytes" (Some 1)) Linter_init)
    = [violation (Some 1) BarePrimitive "bytes"].
Proof. split; by vm_compute. Qed.

(** C3, amended.  For a subscript whose outer expression is neither a
    disallowed nor an allowed generic name: when the outer expression is
    not a name, the classifier goes into the outer expression and then
    into the parameter; when it is a name, the classifier goes into the
    parameter only, and the outer name is not classified. *)
Theorem C3_subscript_outer (outer inner : expr) (self : Linter) :
  neither_disallowed_nor_allowed outer →
  check_annotation (Subscript outer inner) self
  = if is_Name outer then check_annotation inner self
    else check_annotation inner (check_annotation outer self).
Proof.
  intros H. destruct (is_Name outer) eqn:E.
  - destruct outer; try discriminate E. destruct H as [Hg _].
    by apply check_Subscript_name.
  - by apply check_Subscript_other.
Qed.

Lemma C3_subscript_outer_witness :
  check_annotation
    (Subscript (Name "bytes" (Some 1)) (Name "int" (Some 1))) Linter_init
  = check_annotation (Name "int" (Some 1)) Linter_init
  ∧ check_annotation
      (Subscript (Attribute (Name "decimal" (Some 2)) "Decimal" (Some 2))
         (Name "int" (Some 2)))
      Linter_init
    = check_annotation (Name "int" (Some 2))
        (check_annotation
           (Attribute (Name "decimal" (Some 2)) "Decimal" (Some 2))
           Linter_init).
Proof.
  split.
  - apply (C3_subscript_outer (Name "bytes" (Some 1))).
    split; apply (bool_decide_unpack _); by vm_compute.
  - exact (C3_subscript_outer
             (Attribute (Name "decimal" (Some 2)) "Decimal" (Some 2))
             (Name "int" (Some 2)) Linter_init I).
Defined.

(** C5.  On a dotted annotation the classifier rebuilds the dotted path
    (the path of the value, a dot, the attribute; a name is its
    identifier) and appends one BarePrimitive violation, carrying that
    path, when the path ends (as a string) with an entry of
    [DISALLOWED_BASE_TYPES], and nothing otherwise; nothing below the
    attribute is classified.  [somemodule.Decimal] yields exactly one
    BarePrimitive violation; [somemodule.DomainAmount] yields none. *)
Theorem C5_dotted_name_suffix_match :
  (∀ value attr lineno,
     get_full_attr_name (Attribute value attr lineno)
     = match attr_names value with
       | [] => attr
       | _ => get_full_attr_name value +:+ "." +:+ attr
       end)
  ∧ (∀ id lineno, get_full_attr_name (Name id lineno) = id)
  ∧ (∀ value attr lineno self,
       let full_name := get_full_attr_name (Attribute value attr lineno) in
       check_annotation (Attribute value attr lineno) self
       = if existsb (endswith full_name) DISALLOWED_BASE_TYPES
         then record_error lineno (rule_message BarePrimitive full_name) self
         else self)
  ∧ (∀ l1 l2 self,
       errors (check_annotation
                 (Attribute (Name "somemodule" l1) "Decimal" l2) self)
       = errors self ++ [violation l2 BarePrimitive "somemodule.Decimal"])
  ∧ (∀ l1 l2 self,
       check_annotation
         (Attribute (Name "somemodule" l1) "DomainAmount" l2) self
       = self).
Proof.
  split_and!.
  - apply get_full_attr_name_Attribute.
  - reflexivity.
  - apply check_annotation_Attribute.
  - intros. by rewrite check_annotation_Attribute.
  - intros. by rewrite check_annotation_Attribute.
Qed.

(** C6.  Where the name is no recorded alias, a bare name of
    [DISALLOWED_GENERIC_TYPES] yields exactly one UnparameterizedGeneric
    violation; the same name subscripted by an accepted name yields none;
    subscripted by a bare disallowed generic or base type name it counts as
    unparameterized: a UnparameterizedGeneric violation for the outer name
    is recorded, and the parameter is classified after it. *)
Theorem C6_disallowed_generic (g : string) (lineno : option nat)
    (self : Linter) :
  g ∈ DISALLOWED_GENERIC_TYPES →
  g ∉ aliases self →
  check_annotation (Name g lineno) self
  = record_error lineno (rule_message UnparameterizedGeneric g) self
  ∧ (∀ d l,
       d ∉ aliases self → d ∉ DISALLOWED_BASE_TYPES →
       d ∉ DISALLOWED_GENERIC_TYPES →
       check_annotation (Subscript (Name g lineno) (Name d l)) self = self)
  ∧ (∀ p l,
       p ∈ DISALLOWED_GENERIC_TYPES ∨ p ∈ DISALLOWED_BASE_TYPES →
       has_parameters (Name p l) = false
       ∧ check_annotation (Subscript (Name g lineno) (Name p l)) self
         = check_annotation (Name p l)
             (record_error lineno (rule_message UnparameterizedGeneric g) self)).
Proof.
  intros Hg Ha. split_and!.
  - by apply check_Name_generic.
  - intros d l Hda Hdb Hdg. rewrite check_Subscript_generic by done.
    assert (has_parameters (Name d l) = true) as ->.
    { destruct (has_parameters (Name d l)) eqn:E; [done|].
      apply has_parameters_Name in E. tauto. }
    by apply check_Name_accepted.
  - intros p l Hp. apply (has_parameters_Name p l) in Hp as E.
    split; [done|]. rewrite check_Subscript_generic by done. by rewrite E.
Qed.

Lemma C6_disallowed_generic_witness :
  check_annotation (Name "list" (Some 1)) Linter_init
  = record_error (Some 1) (rule_message UnparameterizedGeneric "list")
      Linter_init
  ∧ check_annotation
      (Subscript (Name "list" (Some 1)) (Name "UserId" (Some 1))) Linter_init
    = Linter_init
  ∧ errors (check_annotation
              (Subscript (Name "list" (Some 1)) (Name "int" (Some 1)))
              Linter_init)
    = [ violation (Some 1) UnparameterizedGeneric "list";
        violation (Some 1) BarePrimitive "int" ].
Proof.
  assert ("list" ∈ DISALLOWED_GENERIC_TYPES) as Hg
    by (apply (bool_decide_unpack _); by vm_compute).
  assert ("list" ∉ aliases Linter_init) as Ha by apply not_elem_of_empty.
  destruct (C6_disallowed_generic "list" (Some 1) Linter_init Hg Ha)
    as (H1 & H2 & H3).
  split_and!.
  - exact H1.
  - apply H2; [apply not_elem_of_empty | |];
      apply (bool_decide_unpack _); by vm_compute.
  - destruct (H3 "int" (Some 1)) as [_ ->].
    + right. apply (bool_decide_unpack _). by vm_compute.
    + reflexivity.
Defined.

(** C7.  [list[dict]] yields exactly two violations, for [list] at the
    position of the outer name and for [dict] at the position of the inner
    one, in that order; for every disallowed generic outer name the
    parameter is classified whatever [has_parameters] answered. *)
Theorem C7_list_of_dict (l1 l2 : option nat) (self : Linter) :
  "dict" ∉ aliases self →
  errors (check_annotation (Subscript (Name "list" l1) (Name "dict" l2)) self)
  = errors self ++ [ violation l1 UnparameterizedGeneric "list";
                     violation l2 UnparameterizedGeneric "dict" ]
  ∧ (∀ g l inner,
       g ∈ DISALLOWED_GENERIC_TYPES →
       check_annotation (Subscript (Name g l) inner) self
       = check_annotation inner
           (if has_parameters inner then self
            else record_error l (rule_message UnparameterizedGeneric g) self)).
Proof.
  intros Ha. split.
  - rewrite check_Subscript_generic
      by (apply (bool_decide_unpack _); by vm_compute).
    change (has_parameters (Name "dict" l2)) with false.
    rewrite check_Name_generic;
      [| done | apply (bool_decide_unpack _); by vm_compute].
    simpl. by rewrite <- app_assoc.
  - intros g l inner Hg. by apply check_Subscript_generic.
Qed.

Lemma C7_list_of_dict_witness :
  errors (check_annotation
            (Subscript (Name "list" (Some 4)) (Name "dict" (Some 5)))
            Linter_init)
  = [ violation (Some 4) UnparameterizedGeneric "list";
      violation (Some 5) UnparameterizedGeneric "dict" ].
Proof.
  exact (proj1 (C7_list_of_dict (Some 4) (Some 5) Linter_init
                  (not_elem_of_empty "dict"))).
Defined.

(** For a subscript whose outer name is in [ALLOWED_GENERIC_TYPES],
    nothing is recorded for the outer name and only the parameter is
    classified; with a bare disallowed base type as the parameter, or as
    the result type after an ellipsis as in [Callable[..., int]] (and no
    alias of that name), the result is exactly one violation, for the
    primitive. *)
Theorem allowed_generic_parameter_classified (t : string)
    (lineno : option nat) (self : Linter) :
  t ∈ ALLOWED_GENERIC_TYPES →
  (∀ inner,
     check_annotation (Subscript (Name t lineno) inner) self
     = check_annotation inner self)
  ∧ (∀ p l,
       p ∈ DISALLOWED_BASE_TYPES → p ∉ aliases self →
       errors (check_annotation (Subscript (Name t lineno) (Name p l)) self)
       = errors self ++ [violation l BarePrimitive p]
       ∧ errors (check_annotation
                   (Subscript (Name t lineno)
                      (Tuple [OtherExpr []; Name p l])) self)
         = errors self ++ [violation l BarePrimitive p]).
Proof.
  intros Ht.
  assert (∀ inner,
     check_annotation (Subscript (Name t lineno) inner) self
     = check_annotation inner self) as H.
  { intros inner. apply check_Subscript_name.
    by apply ALLOWED_GENERIC_not_DISALLOWED. }
  split; [exact H|].
  intros p l Hp Ha. rewrite !H. split.
  - by rewrite check_Name_base.
  - change (check_annotation (Tuple [OtherExpr []; Name p l]) self)
      with (check_annotation (Name p l) self).
    by rewrite check_Name_base.
Qed.

Lemma allowed_generic_parameter_classified_witness :
  errors (check_annotation
            (Subscript (Name "Callable" (Some 7)) (Name "int" (Some 7)))
            Linter_init)
  = [violation (Some 7) BarePrimitive "int"]
  ∧ errors (check_annotation
              (Subscript (Name "Callable" (Some 7))
                 (Tuple [OtherExpr []; Name "int" (Some 7)]))
              Linter_init)
    = [violation (Some 7) BarePrimitive "int"].
Proof.
  assert ("Callable" ∈ ALLOWED_GENERIC_TYPES) as Ht
    by (apply (bool_decide_unpack _); by vm_compute).
  apply (proj2 (allowed_generic_parameter_classified "Callable" (Some 7)
                  Linter_init Ht)).
  - apply (bool_decide_unpack _). by vm_compute.
  - apply not_elem_of_empty.
Defined.

(** The parameter list of a callable signature is a list display, a shape
    the classifier has no branch for: in [Callable[[int], R]] the [int] is
    not reached. *)
Example Callable_parameter_list_not_reached (self : Linter) :
  "R" ∉ aliases self →
  check_annotation
    (Subscript (Name "Callable" (Some 1))
       (Tuple [OtherExpr [Name "int" (Some 1)]; Name "R" (Some 1)]))
    self
  = self.
Proof.
  intros Ha. rewrite check_Subscript_name
    by (apply (bool_decide_unpack _); by vm_compute).
  simpl. by rewrite (bool_decide_eq_false_2 _ Ha).
Qed.

(** ** The claims about the walker *)

(** C1, as stated, fails: with the annotation on the line before the alias
    assignment the report is empty, where the claim has one AliasLeak
    violation. *)
Lemma C1_annotation_before_alias_not_reported :
  run annotation_before_alias = []
  ∧ ¬ (∃ lineno,
         run annotation_before_alias = [violation lineno AliasLeak "AliasName"]).
Proof.
  assert (run annotation_before_alias = []) as H by by vm_compute.
  split; [exact H|]. rewrite H. intros [lineno Hl]. discriminate Hl.
Qed.

(** C2, as stated, fails: for a function whose parameter annotation and
    return annotation both violate, the violation of the return annotation
    comes first in the report, the one of the parameter second. *)
Lemma C2_return_violation_precedes_parameter :
  run annotated_function
  = [ violation (Some 1) BarePrimitive "str";
      violation (Some 1) BarePrimitive "int" ]
  ∧ run annotated_function
    ≠ [ violation (Some 1) BarePrimitive "int";
        violation (Some 1) BarePrimitive "str" ].
Proof.
  assert (run annotated_function
          = [ violation (Some 1) BarePrimitive "str";
              violation (Some 1) BarePrimitive "int" ]) as H by by vm_compute.
  split; [exact H|]. rewrite H. vm_compute. discriminate.
Qed.

(** C4 fails on the code.  The return annotation and the parameters of
    [args.args] are classified, and a parameter without annotation adds
    nothing; but the positional-only, keyword-only, [*] and [**]
    parameters are never classified, and an [async def] has none of its
    annotations classified: with [x: int] keyword-only the function is
    reported clean, where [def f(x: int)] has its violation. *)
Theorem C4_other_parameter_kinds_not_classified :
  run keyword_only_parameter = []
  ∧ run positional_parameter = [violation (Some 1) BarePrimitive "int"]
  ∧ (∀ name fargs body decorator_list returns self,
       visit (FunctionDef name fargs body decorator_list returns) self
       = visit (FunctionDef name (only_args fargs) body decorator_list returns)
           self)
  ∧ (∀ name fargs body decorator_list returns self,
       visit (AsyncFunctionDef name fargs body decorator_list returns) self
       = visit_list visit body self).
Proof.
  split_and!.
  - by vm_compute.
  - by vm_compute.
  - intros. by rewrite !visit_FunctionDef_found.
  - intros. apply visit_AsyncFunctionDef_body.
Qed.

(** C10.  [record_error], [check_annotation], [visit] on any statement and
    [visit_Module] keep the report they are given as a prefix of the one
    they return, and keep every alias: errors are only appended, aliases
    only added. *)
Theorem C10_report_and_aliases_grow :
  (∀ lineno message self,
     errors (record_error lineno message self)
     = errors self ++ [error_line lineno message]
     ∧ aliases (record_error lineno message self) = aliases self)
  ∧ (∀ annotation self,
       (∃ new, errors (check_annotation annotation self) = errors self ++ new)
       ∧ aliases (check_annotation annotation self) = aliases self)
  ∧ (∀ node self,
       (∃ new, errors (visit node self) = errors self ++ new)
       ∧ aliases self ⊆ aliases (visit node self))
  ∧ (∀ tree self,
       (∃ new, errors (visit_Module tree self) = errors self ++ new)
       ∧ aliases self ⊆ aliases (visit_Module tree self)).
Proof.
  split_and!.
  - done.
  - intros annotation self. split; [|apply check_annotation_aliases].
    eexists. apply reports_errors, reports_check_annotation.
  - intros node self. destruct (extends_visit node self) as (He & _ & Ha).
    split; [by eexists | done].
  - intros [body] self.
    destruct (extends_visit_body body self) as (He & _ & Ha).
    split; [by eexists | done].
Qed.

(** ** Further properties: the walk *)

Lemma replay_app evs1 evs2 self :
  replay (evs1 ++ evs2) self = replay evs2 (replay evs1 self).
Proof. apply fold_left_app. Qed.

Lemma visit_list_events {A} (visit : A → Linter → Linter)
    (ev : A → list event) (nodes : list A) self :
  Forall (fun node => ∀ self, visit node self = replay (ev node) self) nodes →
  visit_list visit nodes self = replay (flat_map ev nodes) self.
Proof.
  intros H. revert self. induction H as [|node nodes Hn _ IH]; intros self.
  - reflexivity.
  - simpl. rewrite replay_app, <- Hn. apply IH.
Qed.

Lemma visit_Assign_events targets value self :
  visit_Assign targets value self = replay (assigned targets value) self.
Proof.
  unfold visit_Assign, assigned. rewrite visit_expr_id, visit_exprs_id.
  destruct value; try reflexivity. case_bool_decide; [|reflexivity].
  revert self. induction targets as [|t targets IH]; intros self; [done|].
  simpl. rewrite replay_app, <- IH. by destruct t.
Qed.

Lemma check_signature_events fargs returns self :
  fold_left (fun self a => visit_opt check_annotation (annotation a) self)
    (args fargs) (visit_opt check_annotation returns self)
  = replay (signature fargs returns) self.
Proof.
  unfold signature. rewrite replay_app.
  assert (visit_opt check_annotation returns self
          = replay match returns with Some r => [Classify r] | None => [] end
              self) as -> by by destruct returns.
  generalize (replay match returns with Some r => [Classify r] | None => [] end
                self).
  induction (args fargs) as [|a l IH]; intros s; [done|].
  simpl. rewrite replay_app, <- IH. by destruct (annotation a).
Qed.

(** The walker is the replay of its events. *)
Lemma visit_events (node : stmt) self :
  visit node self = replay (events node) self.
Proof.
  revert self.
  induction node as
    [targets value | target ann value
    | name fargs body decorator_list returns IH
    | name fargs body decorator_list returns IH
    | name bases keywords body decorator_list IH
    | children IH] using stmt_nested_ind; intros self.
  - apply visit_Assign_events.
  - apply visit_AnnAssign_check.
  - simpl. unfold visit_FunctionDef.
    rewrite generic_visit_def_body, check_signature_events, replay_app.
    by apply visit_list_events.
  - rewrite visit_AsyncFunctionDef_body. by apply visit_list_events.
  - rewrite visit_ClassDef_body. by apply visit_list_events.
  - simpl. apply (visit_list_events
      (fun child self =>
         match child with
         | inl e => visit_expr e self
         | inr s => visit s self
         end)
      (fun child => match child with inl _ => [] | inr s => events s end)).
    eapply Forall_impl; [exact IH|]. intros [e|s] H s0; simpl in *.
    + apply visit_expr_id.
    + apply H.
Qed.

Lemma visit_Module_events (tree : mod_) self :
  visit_Module tree self = replay (module_events tree) self.
Proof.
  destruct tree as [body]. apply visit_list_events, Forall_forall.
  intros node _ s. apply visit_events.
Qed.

Lemma extends_aliases_add name : extends (aliases_add name).
Proof.
  intros s; simpl. rewrite app_nil_r.
  split_and!; [done | done | apply union_subseteq_r].
Qed.

Lemma extends_replay evs : extends (replay evs).
Proof.
  apply (extends_visit_list
           (fun ev self =>
              match ev with
              | Classify a => check_annotation a self
              | Alias name => aliases_add name self
              end)).
  apply Forall_forall. intros [a|name] _.
  - apply reports_extends, reports_check_annotation.
  - apply extends_aliases_add.
Qed.

Lemma replay_aliases evs self :
  aliases (replay evs self) = aliases self ∪ list_to_set (alias_names evs).
Proof.
  revert self. induction evs as [|[a|name] evs IH]; intros self.
  - symmetry. apply (union_empty_r_L (aliases self)).
  - change (replay (Classify a :: evs) self)
      with (replay evs (check_annotation a self)).
    by rewrite IH, check_annotation_aliases.
  - change (replay (Alias name :: evs) self)
      with (replay evs (aliases_add name self)).
    rewrite IH.
    change (alias_names (Alias name :: evs)) with (name :: alias_names evs).
    simpl. rewrite (union_comm_L {[name]} (aliases self)).
    by rewrite <- union_assoc_L.
Qed.

Lemma replay_no_sites evs self :
  classified evs = [] → errors (replay evs self) = errors self.
Proof.
  revert self. induction evs as [|[a|name] evs IH]; intros self H.
  - done.
  - discriminate H.
  - change (replay (Alias name :: evs) self)
      with (replay evs (aliases_add name self)).
    by rewrite IH.
Qed.

(** The violations of a classified annotation are a block of the report,
    found under the aliases recorded before it. *)
Lemma replay_covers evs a self :
  Classify a ∈ evs →
  ∃ al before after,
    aliases self ⊆ al
    ∧ al ⊆ aliases (replay evs self)
    ∧ errors (replay evs self) = before ++ found al a ++ after.
Proof.
  intros Hin. apply list_elem_of_split in Hin as (evs1 & evs2 & ->).
  rewrite replay_app.
  change (replay (Classify a :: evs2) (replay evs1 self))
    with (replay evs2 (check_annotation a (replay evs1 self))).
  set (s1 := replay evs1 self).
  destruct (extends_replay evs1 self) as (_ & _ & Hsub1).
  destruct (extends_replay evs2 (check_annotation a s1)) as (He & _ & Hsub2).
  exists (aliases s1), (errors s1),
    (errors (replay evs2 (emptied (check_annotation a s1)))).
  split_and!.
  - exact Hsub1.
  - by rewrite check_annotation_aliases in Hsub2.
  - rewrite He, check_annotation_found. simpl. by rewrite <- app_assoc.
Qed.

(** Every entry of the report was there before or comes from a classified
    annotation. *)
Lemma replay_only evs self e :
  e ∈ errors (replay evs self) →
  e ∈ errors self ∨ ∃ a al, Classify a ∈ evs ∧ e ∈ found al a.
Proof.
  revert self. induction evs as [|[a|name] evs IH]; intros self H.
  - by left.
  - change (e ∈ errors (replay evs (check_annotation a self))) in H.
    apply IH in H as [H|(a' & al & Hin & H)].
    + rewrite check_annotation_found in H. simpl in H.
      apply elem_of_app in H as [H|H]; [by left|].
      right. exists a, (aliases self). split; [left | done].
    + right. exists a', al. split; [by right | done].
  - change (e ∈ errors (replay evs (aliases_add name self))) in H.
    apply IH in H as [H|(a' & al & Hin & H)]; [by left|].
    right. exists a', al. split; [by right | done].
Qed.

(** ** Further properties: the classifier *)

Lemma found_Name al id lineno :
  found al (Name id lineno)
  = if bool_decide (id ∈ al) then [violation lineno AliasLeak id]
    else if bool_decide (id ∈ DISALLOWED_BASE_TYPES) then
      [violation lineno BarePrimitive id]
    else if bool_decide (id ∈ DISALLOWED_GENERIC_TYPES) then
      [violation lineno UnparameterizedGeneric id]
    else [].
Proof. unfold found. simpl. by repeat case_bool_decide. Qed.

Lemma found_Subscript_Name al type_name lineno inner :
  found al (Subscript (Name type_name lineno) inner)
  = (if bool_decide (type_name ∈ DISALLOWED_GENERIC_TYPES)
        && negb (has_parameters inner)
     then [violation lineno UnparameterizedGeneric type_name] else [])
    ++ found al inner.
Proof.
  unfold found. case_bool_decide as Hg; simpl andb.
  - rewrite check_Subscript_generic by done.
    destruct (has_parameters inner); simpl negb; [done|].
    by rewrite check_annotation_found.
  - by rewrite check_Subscript_name.
Qed.

Lemma found_Subscript_other al outer inner :
  is_Name outer = false →
  found al (Subscript outer inner) = found al outer ++ found al inner.
Proof.
  intros H. unfold found. rewrite check_Subscript_other by done.
  rewrite (check_annotation_found inner). simpl.
  by rewrite check_annotation_aliases.
Qed.

Lemma found_BinOp al left_ op right_ :
  found al (BinOp left_ op right_)
  = match op with
    | BitOr => found al left_ ++ found al right_
    | _ => []
    end.
Proof.
  unfold found. destruct op; try reflexivity. simpl.
  rewrite (check_annotation_found right_). simpl.
  by rewrite check_annotation_aliases.
Qed.

Lemma found_Tuple al elts : found al (Tuple elts) = flat_map (found al) elts.
Proof. unfold found. simpl. by rewrite check_annotations_found. Qed.

Lemma found_Call al func args keywords :
  found al (Call func args keywords) = flat_map (found al) args.
Proof. unfold found. simpl. by rewrite check_annotations_found. Qed.

Lemma found_Attribute al value attr lineno :
  found al (Attribute value attr lineno)
  = if existsb (endswith (get_full_attr_name (Attribute value attr lineno)))
         DISALLOWED_BASE_TYPES
    then [violation lineno BarePrimitive
            (get_full_attr_name (Attribute value attr lineno))]
    else [].
Proof.
  unfold found. rewrite check_annotation_Attribute.
  by destruct (existsb _ _).
Qed.

Lemma elem_of_flat_map {A B} (f : A → list B) (l : list A) (y : B) :
  y ∈ flat_map f l ↔ ∃ x, x ∈ l ∧ y ∈ f x.
Proof.
  rewrite list_elem_of_In, in_flat_map.
  split; intros (x & Hx & Hy); exists x;
    by rewrite ?list_elem_of_In, <- ?list_elem_of_In in *.
Qed.

Lemma length_flat_map_le {A B C} (f : A → list B) (g : A → list C)
    (l : list A) :
  Forall (fun x => length (f x) ≤ length (g x)) l →
  length (flat_map f l) ≤ length (flat_map g l).
Proof.
  induction 1 as [|x l Hx _ IH]; simpl; [done|].
  rewrite !length_app. lia.
Qed.

(** Whatever the classifier reports for an annotation is a violation by a
    name that stands in the annotation, at the line of its node. *)
Lemma found_located al annotation e :
  e ∈ found al annotation →
  ∃ lineno r name,
    (lineno, name) ∈ reportable annotation ∧ e = violation lineno r name.
Proof.
  revert e.
  induction annotation as
    [id lineno | value attr lineno IH | value slice IHv IHs
    | left_ op right_ IHl IHr | elts IH | func args keywords _ IH _
    | children _] using expr_nested_ind; intros e He.
  - rewrite found_Name in He.
    repeat case_bool_decide; try (by apply elem_of_nil in He);
      apply list_elem_of_singleton in He as ->;
      eexists lineno, _, id; (split; [left | reflexivity]).
  - rewrite found_Attribute in He. destruct (existsb _ _).
    + apply list_elem_of_singleton in He as ->.
      eexists lineno, _, _. split; [left | reflexivity].
    + by apply elem_of_nil in He.
  - assert (e ∈ found al value ∨ e ∈ found al slice
            ∨ ∃ type_name l,
                value = Name type_name l
                ∧ e = violation l UnparameterizedGeneric type_name) as Hor.
    { destruct value;
        try (rewrite found_Subscript_other in He by done;
             apply elem_of_app in He as [?|?]; [by left | by right; left]).
      rewrite found_Subscript_Name in He.
      apply elem_of_app in He as [He|He]; [|by right; left].
      destruct (_ && _); [|by apply elem_of_nil in He].
      apply list_elem_of_singleton in He. right; right. by eexists _, _. }
    destruct Hor as [H|[H|(type_name & l & -> & ->)]].
    + destruct (IHv _ H) as (l & r & n & Hin & ->).
      exists l, r, n. split; [|done]. simpl. apply elem_of_app. by left.
    + destruct (IHs _ H) as (l & r & n & Hin & ->).
      exists l, r, n. split; [|done]. simpl. apply elem_of_app. by right.
    + eexists l, _, type_name. split; [left | reflexivity].
  - rewrite found_BinOp in He.
    destruct op; try (by apply elem_of_nil in He).
    apply elem_of_app in He as [H|H].
    + destruct (IHl _ H) as (l & r & n & Hin & ->).
      exists l, r, n. split; [|done]. simpl. apply elem_of_app. by left.
    + destruct (IHr _ H) as (l & r & n & Hin & ->).
      exists l, r, n. split; [|done]. simpl. apply elem_of_app. by right.
  - rewrite found_Tuple in He. apply elem_of_flat_map in He as (x & Hx & He).
    rewrite Forall_forall in IH.
    destruct (IH x Hx _ He) as (l & r & n & Hin & ->).
    exists l, r, n. split; [|done]. simpl. apply elem_of_flat_map. eauto.
  - rewrite found_Call in He. apply elem_of_flat_map in He as (x & Hx & He).
    rewrite Forall_forall in IH.
    destruct (IH x Hx _ He) as (l & r & n & Hin & ->).
    exists l, r, n. split; [|done]. simpl.
    apply elem_of_app. right. apply elem_of_app. left.
    apply elem_of_flat_map. eauto.
  - by apply elem_of_nil in He.
Qed.

(** At most one violation for each name of the annotation. *)
Lemma found_length_le al annotation :
  length (found al annotation) ≤ length (reportable annotation).
Proof.
  induction annotation as
    [id lineno | value attr lineno IH | value slice IHv IHs
    | left_ op right_ IHl IHr | elts IH | func args keywords _ IH _
    | children _] using expr_nested_ind.
  - rewrite found_Name. by repeat case_bool_decide; simpl; lia.
  - rewrite found_Attribute. destruct (existsb _ _); simpl; lia.
  - simpl reportable. rewrite length_app.
    destruct value;
      try (rewrite found_Subscript_other, length_app by done; lia).
    rewrite found_Subscript_Name, length_app.
    destruct (_ && _); simpl; lia.
  - simpl reportable. rewrite length_app, found_BinOp.
    destruct op; rewrite ?length_app; simpl; lia.
  - rewrite found_Tuple. by apply length_flat_map_le.
  - rewrite found_Call. simpl reportable. rewrite !length_app.
    pose proof (length_flat_map_le (found al) reportable args IH). lia.
  - unfold found. simpl. lia.
Qed.

(** Recording more aliases never makes an annotation yield fewer
    violations. *)
Lemma found_length_mono al1 al2 annotation :
  al1 ⊆ al2 →
  length (found al1 annotation) ≤ length (found al2 annotation).
Proof.
  intros Hsub.
  induction annotation as
    [id lineno | value attr lineno IH | value slice IHv IHs
    | left_ op right_ IHl IHr | elts IH | func args keywords _ IH _
    | children _] using expr_nested_ind.
  - rewrite !found_Name.
    destruct (decide (id ∈ al1)) as [H1|H1].
    + rewrite (bool_decide_eq_true_2 _ H1).
      by rewrite (bool_decide_eq_true_2 (id ∈ al2)) by by apply Hsub.
    + rewrite (bool_decide_eq_false_2 _ H1).
      destruct (decide (id ∈ al2)) as [H2|H2].
      * rewrite (bool_decide_eq_true_2 _ H2).
        repeat case_bool_decide; simpl; lia.
      * by rewrite (bool_decide_eq_false_2 _ H2).
  - by rewrite !found_Attribute.
  - destruct value;
      try (rewrite (found_Subscript_other al1), (found_Subscript_other al2),
             !length_app by done; lia).
    rewrite !found_Subscript_Name, !length_app. lia.
  - rewrite !found_BinOp. destruct op; rewrite ?length_app; simpl; lia.
  - rewrite !found_Tuple. by apply length_flat_map_le.
  - rewrite !found_Call. by apply length_flat_map_le.
  - done.
Qed.

(** ** Further properties: dotted names *)

Lemma attr_names_dotted_from (value : expr) attrs lineno :
  attr_names
    (fold_left (fun value attr => Attribute value attr lineno) attrs value)
  = rev attrs ++ attr_names value.
Proof.
  revert value. induction attrs as [|a attrs IH]; intros value; [done|].
  simpl. rewrite IH. simpl. by rewrite <- app_assoc.
Qed.

Lemma existsb_ext_in {A} (f g : A → bool) (l : list A) :
  (∀ x, x ∈ l → f x = g x) → existsb f l = existsb g l.
Proof.
  induction l as [|x l IH]; intros H; [done|]. simpl.
  rewrite (H x) by left. rewrite IH; [done|]. intros y Hy. apply H. by right.
Qed.

(** A suffix without a dot lies within the last segment. *)
Lemma endswith_last_segment (front attr d : string) :
  "."%char ∉ String.list_ascii_of_string d →
  endswith (front +:+ "." +:+ attr) d = endswith attr d.
Proof.
  intros Hdot. unfold endswith.
  rewrite !list_ascii_of_string_app.
  set (f := String.list_ascii_of_string front).
  set (a := String.list_ascii_of_string attr).
  set (k := String.list_ascii_of_string d) in *.
  change (String.list_ascii_of_string ".") with ["."%char].
  apply bool_decide_ext. split.
  - intros Hs.
    destruct (suffix_weak_total k a (f ++ ["."%char] ++ a)) as [H|H];
      [done | by apply suffix_app_r, suffix_app_r | done |].
    destruct H as [pre Hk].
    destruct (decide (pre = [])) as [->|Hne]; [by rewrite Hk|].
    exfalso. rewrite Hk in Hs, Hdot.
    rewrite (app_assoc f) in Hs. apply suffix_app_inv in Hs.
    destruct Hs as [pre' Hs].
    destruct (exists_last Hne) as (pre0 & c & ->).
    rewrite !app_assoc in Hs. apply app_inj_tail in Hs as [_ <-].
    apply Hdot. rewrite !elem_of_app, list_elem_of_singleton. tauto.
  - intros Hs. rewrite app_assoc. by apply suffix_app_r.
Qed.

Lemma DISALLOWED_BASE_TYPES_no_dot (d : string) :
  d ∈ DISALLOWED_BASE_TYPES →
  "."%char ∉ String.list_ascii_of_string d.
Proof.
  assert (Forall (fun d => "."%char ∉ String.list_ascii_of_string d)
            DISALLOWED_BASE_TYPES) as H
    by (apply (bool_decide_unpack _); by vm_compute).
  rewrite Forall_forall in H. apply H.
Qed.

(** Whether a dotted name is flagged depends on its last segment only. *)
Lemma check_annotation_Attribute_last value attr lineno self :
  check_annotation (Attribute value attr lineno) self
  = if existsb (endswith attr) DISALLOWED_BASE_TYPES
    then record_error lineno
           (rule_message BarePrimitive
              (get_full_attr_name (Attribute value attr lineno))) self
    else self.
Proof.
  rewrite check_annotation_Attribute. cbv zeta.
  assert (existsb (endswith (get_full_attr_name (Attribute value attr lineno)))
            DISALLOWED_BASE_TYPES
          = existsb (endswith attr) DISALLOWED_BASE_TYPES) as ->; [|done].
  apply existsb_ext_in. intros d Hd.
  rewrite get_full_attr_name_Attribute.
  destruct (attr_names value); [done|].
  by apply endswith_last_segment, DISALLOWED_BASE_TYPES_no_dot.
Qed.

(** ** Further properties of the walker *)

(** X1.  Walking a module gives the state reached by replaying its events,
    the annotations classified and the aliases recorded, in the order of
    the walk: how statements are nested in classes, functions and
    compound statements plays no part. *)
Theorem X1_walk_is_replay (tree : mod_) (self : Linter) :
  visit_Module tree self = replay (module_events tree) self.
Proof. apply visit_Module_events. Qed.

(** X2.  After the walk the aliases are the ones it started with and the
    bare-name targets of every assignment from a disallowed base type
    name, wherever the assignment stands: an alias made inside a function
    or class body is known everywhere afterwards. *)
Theorem X2_aliases_are_global (tree : mod_) (self : Linter) :
  aliases (visit_Module tree self)
  = aliases self ∪ list_to_set (alias_names (module_events tree)).
Proof. rewrite visit_Module_events. apply replay_aliases. Qed.

(** X3.  A module in which the walker meets no annotation has an empty
    report. *)
Theorem X3_no_annotation_no_report (tree : mod_) :
  classified (module_events tree) = [] → run tree = [].
Proof.
  intros H. unfold run. rewrite visit_Module_events.
  by rewrite replay_no_sites.
Qed.

Lemma X3_no_annotation_no_report_witness : run unannotated_module = [].
Proof. apply X3_no_annotation_no_report. reflexivity. Defined.

(** X4.  The violations of every annotation the walker classifies stand in
    the final report as one block, in the classifier's order, found under
    aliases that are among the final ones: later statements remove none of
    them and put nothing between them. *)
Theorem X4_site_violations_reported (tree : mod_) (a : expr) :
  Classify a ∈ module_events tree →
  ∃ al before after,
    al ⊆ aliases (visit_Module tree Linter_init)
    ∧ run tree = before ++ found al a ++ after.
Proof.
  intros H. unfold run. rewrite visit_Module_events.
  destruct (replay_covers _ _ Linter_init H) as (al & b & c & _ & Hal & He).
  by exists al, b, c.
Qed.

Lemma X4_site_violations_reported_witness :
  ∃ al before after,
    al ⊆ aliases (visit_Module alias_before_annotation Linter_init)
    ∧ run alias_before_annotation
      = before ++ found al (Name "AliasName" (Some 2)) ++ after.
Proof.
  apply X4_site_violations_reported.
  vm_compute. apply list_elem_of_further, list_elem_of_here.
Defined.

(** X5.  Every entry of the report is a violation by a name that stands,
    at the reported line, in one of the annotations the walker classified:
    nothing is reported for a name or a line that is not in an
    annotation. *)
Theorem X5_report_entries_located (tree : mod_) (e : string) :
  e ∈ run tree →
  ∃ a lineno r name,
    Classify a ∈ module_events tree
    ∧ (lineno, name) ∈ reportable a
    ∧ e = violation lineno r name.
Proof.
  unfold run. rewrite visit_Module_events. intros H.
  apply replay_only in H as [H|(a & al & Hin & H)];
    [by apply elem_of_nil in H|].
  destruct (found_located _ _ _ H) as (l & r & n & Hn & ->).
  by exists a, l, r, n.
Qed.

Lemma X5_report_entries_located_witness :
  ∃ a lineno r name,
    Classify a ∈ module_events annotated_function
    ∧ (lineno, name) ∈ reportable a
    ∧ violation (Some 1) BarePrimitive "int" = violation lineno r name.
Proof.
  apply X5_report_entries_located.
  vm_compute. apply list_elem_of_further, list_elem_of_here.
Defined.

(** A bare disallowed base type name that is classified is reported, under
    one rule or the other. *)
Lemma base_type_site_reported (tree : mod_) (p : string)
    (lineno : option nat) :
  Classify (Name p lineno) ∈ module_events tree →
  p ∈ DISALLOWED_BASE_TYPES →
  violation lineno BarePrimitive p ∈ run tree
  ∨ violation lineno AliasLeak p ∈ run tree.
Proof.
  intros H Hp. unfold run. rewrite visit_Module_events.
  destruct (replay_covers _ _ Linter_init H) as (al & b & c & _ & _ & ->).
  rewrite found_Name, (bool_decide_eq_true_2 _ Hp).
  case_bool_decide; [right | left];
    apply elem_of_app; right; apply elem_of_app; left; left.
Qed.

(** X6.  A bare disallowed base type name used as an annotation anywhere
    the walker classifies is always in the report, as a BarePrimitive
    violation or, when the name was recorded as an alias before, as an
    AliasLeak violation. *)
Theorem X6_base_type_always_reported (tree : mod_) (p : string)
    (lineno : option nat) :
  Classify (Name p lineno) ∈ module_events tree →
  p ∈ DISALLOWED_BASE_TYPES →
  violation lineno BarePrimitive p ∈ run tree
  ∨ violation lineno AliasLeak p ∈ run tree.
Proof. apply base_type_site_reported. Qed.

Lemma X6_base_type_always_reported_witness :
  violation (Some 1) BarePrimitive "str" ∈ run annotated_function
  ∨ violation (Some 1) AliasLeak "str" ∈ run annotated_function.
Proof.
  apply X6_base_type_always_reported.
  - vm_compute. apply list_elem_of_here.
  - apply (bool_decide_unpack _). by vm_compute.
Defined.

(** X7.  An assignment never adds to the report.  It adds aliases only
    when its right-hand side is a bare disallowed base type name, and then
    exactly its bare-name targets; with any other right-hand side, a
    recorded alias included, the alias set stays as it is. *)
Theorem X7_assignment_effect (targets : list expr) (value : expr)
    (self : Linter) :
  errors (visit (Assign targets value) self) = errors self
  ∧ ∀ a,
      a ∈ aliases (visit (Assign targets value) self)
      ↔ a ∈ aliases self
        ∨ (base_type_name value ∧ ∃ lineno, Name a lineno ∈ targets).
Proof.
  rewrite visit_events. split.
  - apply replay_no_sites. simpl. unfold assigned.
    destruct value; try done. case_bool_decide; [|done].
    induction targets as [|[] targets IH]; simpl; done.
  - intros a. rewrite replay_aliases, elem_of_union, elem_of_list_to_set.
    apply or_iff_compat_l. simpl. unfold assigned.
    destruct value as [id l| | | | | |];
      try (split; [by intros ?%elem_of_nil | by intros [[] _]]).
    case_bool_decide as Hb;
      [|split; [by intros ?%elem_of_nil | by intros [? _]]].
    split.
    + intros H. split; [done|].
      induction targets as [|t targets IH]; [by apply elem_of_nil in H|].
      destruct t as [tid tl| | | | | |]; simpl in H;
        try (destruct (IH H) as [l' ?]; exists l'; by right).
      apply elem_of_cons in H as [->|H]; [exists tl; left|].
      destruct (IH H) as [l' ?]. exists l'. by right.
    + intros [_ [l' H]].
      induction targets as [|t targets IH]; [by apply elem_of_nil in H|].
      apply elem_of_cons in H as [<-|H]; [left|].
      destruct t; simpl; try by apply IH. right. by apply IH.
Qed.

(** X8.  An annotated assignment does to the state what classifying its
    annotation does: its target and its value add nothing to the report,
    and it records no alias, also when its value is a disallowed base type
    name. *)
Theorem X8_annotated_assignment (target ann : expr) (value : option expr)
    (self : Linter) :
  visit (AnnAssign target ann value) self = check_annotation ann self
  ∧ aliases (visit (AnnAssign target ann value) self) = aliases self.
Proof.
  rewrite visit_AnnAssign_check. split; [done|].
  apply check_annotation_aliases.
Qed.

(** ** Further properties of the classifier *)

(** X9.  Whether a dotted annotation is flagged depends on its last
    segment only: it is flagged exactly when the attribute name itself
    ends with a disallowed base type name, whatever it is an attribute
    of. *)
Theorem X9_dotted_name_last_segment (value : expr) (attr : string)
    (lineno : option nat) (self : Linter) :
  check_annotation (Attribute value attr lineno) self
  = if existsb (endswith attr) DISALLOWED_BASE_TYPES
    then record_error lineno
           (rule_message BarePrimitive
              (get_full_attr_name (Attribute value attr lineno))) self
    else self.
Proof. apply check_annotation_Attribute_last. Qed.

(** X10.  A name that only ends with a disallowed base type name is
    accepted as a bare annotation but flagged as soon as it is qualified:
    the bare name is tested for membership, the dotted one for a
    suffix. *)
Theorem X10_qualified_name_over_match (front d : string) (value : expr)
    (l1 l2 : option nat) (self : Linter) :
  d ∈ DISALLOWED_BASE_TYPES →
  front +:+ d ∉ aliases self →
  front +:+ d ∉ DISALLOWED_BASE_TYPES →
  front +:+ d ∉ DISALLOWED_GENERIC_TYPES →
  check_annotation (Name (front +:+ d) l1) self = self
  ∧ errors (check_annotation (Attribute value (front +:+ d) l2) self)
    = errors self
      ++ [violation l2 BarePrimitive
            (get_full_attr_name (Attribute value (front +:+ d) l2))].
Proof.
  intros Hd Ha Hb Hg. split; [by apply check_Name_accepted|].
  rewrite check_annotation_Attribute_last.
  assert (existsb (endswith (front +:+ d)) DISALLOWED_BASE_TYPES = true)
    as ->; [|done].
  apply existsb_exists. exists d. split; [by apply list_elem_of_In|].
  apply endswith_spec. by exists front.
Qed.

Lemma X10_qualified_name_over_match_witness :
  check_annotation (Name "MyDecimal" (Some 1)) Linter_init = Linter_init
  ∧ errors (check_annotation
              (Attribute (Name "models" (Some 2)) "MyDecimal" (Some 2))
              Linter_init)
    = [violation (Some 2) BarePrimitive "models.MyDecimal"].
Proof.
  apply (X10_qualified_name_over_match "My" "Decimal"
           (Name "models" (Some 2)) (Some 1) (Some 2) Linter_init).
  - apply (bool_decide_unpack _). by vm_compute.
  - apply not_elem_of_empty.
  - apply (bool_decide_unpack _). by vm_compute.
  - apply (bool_decide_unpack _). by vm_compute.
Defined.

(** X11.  For the expression of a dotted name [base.a1. ... .an],
    [get_full_attr_name] gives back the segments joined by dots. *)
Theorem X11_dotted_path_round_trip (base : string) (attrs : list string)
    (lineno : option nat) :
  get_full_attr_name (dotted base attrs lineno)
  = String.concat "." (base :: attrs).
Proof.
  unfold get_full_attr_name, dotted. rewrite attr_names_dotted_from.
  simpl. by rewrite rev_app_distr, rev_involutive.
Qed.

(** X12.  An annotation yields at most one violation for each of its
    names: the report of an annotation is never longer than the list of
    its [Name] nodes and outermost dotted names. *)
Theorem X12_one_violation_per_name (al : gset string) (annotation : expr) :
  length (found al annotation) ≤ length (reportable annotation).
Proof. apply found_length_le. Qed.

(** X13.  Recording more aliases never makes an annotation yield fewer
    violations. *)
Theorem X13_more_aliases_no_fewer_violations (al1 al2 : gset string)
    (annotation : expr) :
  al1 ⊆ al2 →
  length (found al1 annotation) ≤ length (found al2 annotation).
Proof. apply found_length_mono. Qed.

Lemma X13_more_aliases_no_fewer_violations_witness :
  length (found ∅ (Name "UserId" (Some 1)))
  ≤ length (found {["UserId"]} (Name "UserId" (Some 1))).
Proof.
  apply X13_more_aliases_no_fewer_violations. apply empty_subseteq.
Defined.

(** X14.  Of a call only the positional arguments are classified, from
    left to right and each under the same aliases; the callee and the
    keyword arguments are never classified. *)
Theorem X14_call_arguments_only (al : gset string) (func : expr)
    (args keywords : list expr) :
  found al (Call func args keywords) = flat_map (found al) args.
Proof. apply found_Call. Qed.

(** X15.  A disallowed generic whose parameter is anything but a bare
    disallowed generic or base type name is not flagged itself: the
    violations are those of the parameter.  So with an alias, a union or a
    dotted name as the parameter the outer container is never reported. *)
Theorem X15_parameterized_generic_not_flagged (al : gset string)
    (g : string) (lineno : option nat) (inner : expr) :
  g ∈ DISALLOWED_GENERIC_TYPES →
  ¬ bare_disallowed inner →
  found al (Subscript (Name g lineno) inner) = found al inner.
Proof.
  intros Hg Hn. rewrite found_Subscript_Name.
  assert (has_parameters inner = true) as ->.
  { destruct inner as [id l| | | | | |]; try done.
    destruct (has_parameters (Name id l)) eqn:E; [done|].
    apply has_parameters_Name in E. by destruct Hn. }
  by rewrite andb_false_r.
Qed.

Lemma X15_parameterized_generic_not_flagged_witness :
  found {["Text"]} (Subscript (Name "list" (Some 3)) (Name "Text" (Some 3)))
  = found {["Text"]} (Name "Text" (Some 3)).
Proof.
  apply X15_parameterized_generic_not_flagged.
  - apply (bool_decide_unpack _). by vm_compute.
  - simpl. intros [H|H]; revert H; apply (bool_decide_unpack _); by vm_compute.
Defined.

(** X16.  Python iterates over the set [DISALLOWED_BASE_TYPES] in an order
    that changes from run to run; the loop of the [Attribute] branch
    reaches the same state in every order, the one [check_annotation] is
    modelled with. *)
Theorem X16_set_order_irrelevant (order : list string) (value : expr)
    (attr : string) (lineno : option nat) (self : Linter) :
  order ≡ₚ DISALLOWED_BASE_TYPES →
  fold_left
    (fun self disallowed =>
       if endswith (get_full_attr_name (Attribute value attr lineno))
            disallowed
       then
         record_error lineno
           (rule_message BarePrimitive
              (get_full_attr_name (Attribute value attr lineno))) self
       else self)
    order self
  = check_annotation (Attribute value attr lineno) self.
Proof.
  intros Hp. rewrite check_annotation_Attribute.
  by apply Attribute_loop_any_order.
Qed.

Lemma X16_set_order_irrelevant_witness :
  fold_left
    (fun self disallowed =>
       if endswith "decimal.Decimal" disallowed then
         record_error (Some 1)
           (rule_message BarePrimitive "decimal.Decimal") self
       else self)
    (rev DISALLOWED_BASE_TYPES) Linter_init
  = check_annotation
      (Attribute (Name "decimal" (Some 1)) "Decimal" (Some 1)) Linter_init.
Proof.
  apply (X16_set_order_irrelevant (rev DISALLOWED_BASE_TYPES)
           (Name "decimal" (Some 1)) "Decimal" (Some 1) Linter_init).
  symmetry. apply Permutation_rev.
Defined.

(** ** Further properties: the entries of the report *)

Lemma list_ascii_of_string_inj (s1 s2 : string) :
  String.list_ascii_of_string s1 = String.list_ascii_of_string s2 → s1 = s2.
Proof.
  intros H. rewrite <- (String.string_of_list_ascii_of_string s1), H.
  apply String.string_of_list_ascii_of_string.
Qed.

Lemma string_app_inv_tail (s1 s2 tail : string) :
  s1 +:+ tail = s2 +:+ tail → s1 = s2.
Proof.
  intros H. apply list_ascii_of_string_inj.
  apply (f_equal String.list_ascii_of_string) in H.
  rewrite !list_ascii_of_string_app in H. by apply app_inv_tail in H.
Qed.

(** The decimal text of a number is made of digits. *)
Lemma pretty_N_go_digits (x : N) (s : string) :
  Forall (fun c => c ∈ String.list_ascii_of_string "0123456789")
    (String.list_ascii_of_string s) →
  Forall (fun c => c ∈ String.list_ascii_of_string "0123456789")
    (String.list_ascii_of_string (pretty_N_go x s)).
Proof.
  revert s. induction (N.lt_wf_0 x) as [x _ IH]; intros s Hs.
  assert (x = 0 ∨ 0 < x)%N as [->|?] by lia.
  - by rewrite pretty_N_go_0.
  - rewrite pretty_N_go_step by done. apply IH; [by apply N.div_lt|].
    simpl. constructor; [|done].
    unfold pretty_N_char. repeat case_match; simpl;
      repeat (first [apply list_elem_of_here | apply list_elem_of_further]).
Qed.

Lemma pretty_nat_digits (n : nat) :
  Forall (fun c => c ∈ String.list_ascii_of_string "0123456789")
    (String.list_ascii_of_string (pretty n)).
Proof.
  unfold pretty, pretty_nat, pretty, pretty_N. case_decide.
  - simpl. repeat constructor.
  - by apply pretty_N_go_digits.
Qed.

(** The text [record_error] writes for the line contains no colon. *)
Lemma lineno_text_no_colon (lineno : option nat) :
  ":"%char
    ∉ String.list_ascii_of_string
        match lineno with Some n => pretty n | None => "неизвестно" end.
Proof.
  destruct lineno as [n|].
  - intros H. pose proof (pretty_nat_digits n) as Hd.
    rewrite Forall_forall in Hd. apply Hd in H. revert H.
    apply (bool_decide_unpack _). by vm_compute.
  - apply (bool_decide_unpack _). by vm_compute.
Qed.

Lemma lineno_text_inj (l1 l2 : option nat) :
  match l1 with Some n => pretty n | None => "неизвестно" end
  = match l2 with Some n => pretty n | None => "неизвестно" end →
  l1 = l2.
Proof.
  assert (∀ n : nat, pretty n ≠ "неизвестно") as Hne.
  { intros n H. pose proof (pretty_nat_digits n) as Hd. rewrite H in Hd.
    apply Forall_inv in Hd. revert Hd.
    apply (bool_decide_unpack _). by vm_compute. }
  destruct l1 as [n1|], l2 as [n2|]; intros H.
  - f_equal. by apply (inj pretty).
  - by apply Hne in H.
  - symmetry in H. by apply Hne in H.
  - done.
Qed.

Lemma split_at_first {A} (c : A) (u1 u2 r1 r2 : list A) :
  c ∉ u1 → c ∉ u2 → u1 ++ c :: r1 = u2 ++ c :: r2 → u1 = u2 ∧ r1 = r2.
Proof.
  revert u2. induction u1 as [|x u1 IH]; intros [|y u2] H1 H2 H; simpl in H.
  - by injection H.
  - injection H as -> _. destruct H2. left.
  - injection H as -> _. destruct H1. left.
  - injection H as -> H. destruct (IH u2) as [-> ->]; try done.
    + intros ?. apply H1. by right.
    + intros ?. apply H2. by right.
Qed.

(** An entry of the report determines the line and the message it was
    built from. *)
Lemma error_line_inj (l1 l2 : option nat) (m1 m2 : string) :
  error_line l1 m1 = error_line l2 m2 → l1 = l2 ∧ m1 = m2.
Proof.
  unfold error_line. intros H. apply String.app_inj in H.
  apply (f_equal String.list_ascii_of_string) in H.
  rewrite !list_ascii_of_string_app in H.
  change (String.list_ascii_of_string ": ") with [":"%char; " "%char] in H.
  apply split_at_first in H as [Hl Hm]; try apply lineno_text_no_colon.
  split.
  - by apply lineno_text_inj, list_ascii_of_string_inj.
  - injection Hm as Hm. by apply list_ascii_of_string_inj.
Qed.

Lemma rule_message_name_inj (r : rule) (name1 name2 : string) :
  rule_message r name1 = rule_message r name2 → name1 = name2.
Proof.
  destruct r; simpl; intros H; apply String.app_inj in H;
    by apply string_app_inv_tail in H.
Qed.

(** X17.  An entry of the report can be read back: two violations with the
    same text have the same line (or both none), the same rule and the
    same name. *)
Theorem X17_entry_read_back (l1 l2 : option nat) (r1 r2 : rule)
    (name1 name2 : string) :
  violation l1 r1 name1 = violation l2 r2 name2 →
  l1 = l2 ∧ r1 = r2 ∧ name1 = name2.
Proof.
  unfold violation. intros H. apply error_line_inj in H as [-> H].
  pose proof (rule_message_inj _ _ _ _ H) as ->.
  by apply rule_message_name_inj in H as ->.
Qed.

Lemma X17_entry_read_back_witness :
  Some 12 = Some 12 ∧ AliasLeak = AliasLeak ∧ "Text" = "Text".
Proof.
  exact (X17_entry_read_back (Some 12) (Some 12) AliasLeak AliasLeak
           "Text" "Text" eq_refl).
Defined.

(** ** Further properties of the entry point *)

(** X18.  When the file opens and parses to a module in which the walker
    meets no annotation, [main] prints the success line alone and returns
    without calling [sys.exit]. *)
Theorem X18_main_passes_without_annotations (source : string)
    (ast_parse : string → string + mod_) (tree : mod_) :
  ast_parse source = inr tree →
  classified (module_events tree) = [] →
  main (inr source) ast_parse = (["Проверка пройдена успешно!"], None).
Proof.
  intros Hp Hc. unfold main. rewrite Hp.
  rewrite visit_Module_events, replay_no_sites by done. reflexivity.
Qed.

Lemma X18_main_passes_without_annotations_witness :
  main (inr "Text = str") (fun _ => inr unannotated_module)
  = (["Проверка пройдена успешно!"], None).
Proof.
  by apply (X18_main_passes_without_annotations _ _ unannotated_module).
Defined.

(** X19.  When the parsed module has, anywhere the walker classifies, a
    bare disallowed base type name as an annotation, [main] exits with
    code 1, prints the heading first, and prints the line of that
    violation (a BarePrimitive one, or an AliasLeak one when the name was
    made an alias before). *)
Theorem X19_main_fails_on_base_type (source : string)
    (ast_parse : string → string + mod_) (tree : mod_) (p : string)
    (lineno : option nat) :
  ast_parse source = inr tree →
  Classify (Name p lineno) ∈ module_events tree →
  p ∈ DISALLOWED_BASE_TYPES →
  snd (main (inr source) ast_parse) = Some 1
  ∧ head (fst (main (inr source) ast_parse)) = Some "Найдены ошибки:"
  ∧ ("  - " +:+ violation lineno BarePrimitive p
       ∈ fst (main (inr source) ast_parse)
     ∨ "  - " +:+ violation lineno AliasLeak p
         ∈ fst (main (inr source) ast_parse)).
Proof.
  intros Hparse Hin Hp.
  pose proof (base_type_site_reported tree p lineno Hin Hp) as Hrun.
  unfold main. rewrite Hparse. unfold run in Hrun.
  destruct (errors (visit_Module tree Linter_init)) as [|e es] eqn:E.
  - destruct Hrun as [H|H]; by apply elem_of_nil in H.
  - split_and!; [done | done |].
    destruct Hrun as [H|H]; [left | right]; right;
      by apply (list_elem_of_fmap_2 (fun error => "  - " +:+ error)).
Qed.

Lemma X19_main_fails_on_base_type_witness :
  snd (main (inr "def f(x: int) -> str: pass")
         (fun _ => inr annotated_function))
  = Some 1.
Proof.
  refine (proj1 (X19_main_fails_on_base_type
                   "def f(x: int) -> str: pass"
                   (fun _ => inr annotated_function) annotated_function
                   "str" (Some 1) eq_refl _ _)).
  - vm_compute. apply list_elem_of_here.
  - apply (bool_decide_unpack _). by vm_compute.
Defined.

(** ** Aliases declared first *)

Lemma replay_aliases_first (names : list string) self :
  replay (map Alias names) self
  = {| errors := errors self;
       aliases := aliases self ∪ list_to_set names |}.
Proof.
  apply Linter_eq; simpl.
  - apply replay_no_sites. by induction names.
  - rewrite replay_aliases. do 2 f_equal.
    induction names as [|n names IH]; [done|]. simpl. by rewrite IH.
Qed.

Lemma replay_classify (annotations : list expr) self :
  replay (map Classify annotations) self
  = {| errors := errors self ++ flat_map (found (aliases self)) annotations;
       aliases := aliases self |}.
Proof.
  revert self. induction annotations as [|a l IH]; intros self.
  - apply Linter_eq; simpl; [by rewrite app_nil_r | done].
  - change (replay (map Classify (a :: l)) self)
      with (replay (map Classify l) (check_annotation a self)).
    rewrite IH, check_annotation_found. simpl. by rewrite <- app_assoc.
Qed.

(** X21.  When every alias assignment of a module is walked before every
    annotation, the report is the concatenation, in walk order, of what
    the classifier finds for each annotation under the full alias set;
    without any alias assignment it is the concatenation of what each
    annotation yields on its own. *)
Theorem X21_aliases_first (tree : mod_) (names : list string)
    (annotations : list expr) :
  module_events tree = map Alias names ++ map Classify annotations →
  run tree = flat_map (found (list_to_set names)) annotations.
Proof.
  intros H. unfold run.
  rewrite visit_Module_events, H, replay_app.
  rewrite replay_aliases_first, replay_classify. simpl.
  by rewrite union_empty_l_L.
Qed.

Lemma X21_aliases_first_witness :
  run alias_before_annotation
  = flat_map (found (list_to_set ["AliasName"]))
      [Name "AliasName" (Some 2)].
Proof.
  apply (X21_aliases_first alias_before_annotation ["AliasName"]
           [Name "AliasName" (Some 2)]).
  reflexivity.
Defined.

(** ** The claims about the walker, over all statements of a module *)

Lemma flat_map_own_events {A} (ev : A → list event) (w : A → list stmt)
    (l : list A) :
  Forall (fun x => ev x = flat_map own_events (w x)) l →
  flat_map ev l = flat_map own_events (flat_map w l).
Proof.
  induction 1 as [|x l Hx _ IH]; [done|].
  simpl. by rewrite flat_map_app, Hx, IH.
Qed.

(** The events of a statement are those of the statements at and below
    it, in the order of the walk. *)
Lemma events_walked (node : stmt) :
  events node = flat_map own_events (walked node).
Proof.
  induction node as
    [targets value | target ann value
    | name fargs body decorator_list returns IH
    | name fargs body decorator_list returns IH
    | name bases keywords body decorator_list IH
    | children IH] using stmt_nested_ind.
  - simpl. by rewrite app_nil_r.
  - done.
  - simpl. f_equal. by apply flat_map_own_events.
  - simpl. by apply flat_map_own_events.
  - simpl. by apply flat_map_own_events.
  - simpl. apply (flat_map_own_events
      (fun child => match child with inl _ => [] | inr s => events s end)
      (fun child => match child with inl _ => [] | inr s => walked s end)).
    eapply Forall_impl; [exact IH|]. by intros [e|s] H.
Qed.

Lemma module_events_statements (tree : mod_) :
  module_events tree = flat_map own_events (module_statements tree).
Proof.
  destruct tree as [body]. simpl.
  apply flat_map_own_events, Forall_forall. intros node _.
  apply events_walked.
Qed.

Lemma replay_report evs self :
  errors (replay evs self) = errors self ++ report_of evs (aliases self).
Proof.
  revert self. induction evs as [|[a|name] evs IH]; intros self.
  - simpl. by rewrite app_nil_r.
  - change (replay (Classify a :: evs) self)
      with (replay evs (check_annotation a self)).
    rewrite IH, check_annotation_found. simpl. by rewrite <- app_assoc.
  - change (replay (Alias name :: evs) self)
      with (replay evs (aliases_add name self)).
    by rewrite IH.
Qed.

Lemma report_of_app evs1 evs2 al :
  report_of (evs1 ++ evs2) al
  = report_of evs1 al
    ++ report_of evs2 (list_to_set (alias_names evs1) ∪ al).
Proof.
  revert al. induction evs1 as [|[a|name] evs1 IH]; intros al.
  - simpl. by rewrite union_empty_l_L.
  - simpl. rewrite IH. by rewrite <- app_assoc.
  - simpl. rewrite IH. do 2 f_equal.
    change (alias_names (Alias name :: evs1)) with (name :: alias_names evs1).
    simpl. rewrite (union_comm_L {[name]} (list_to_set _)).
    by rewrite <- union_assoc_L.
Qed.

(** The report of a module, statement by statement. *)
Lemma run_statements (tree : mod_) :
  run tree = report_of (flat_map own_events (module_statements tree)) ∅.
Proof.
  unfold run.
  by rewrite visit_Module_events, replay_report, module_events_statements.
Qed.

Lemma alias_names_app evs1 evs2 :
  alias_names (evs1 ++ evs2) = alias_names evs1 ++ alias_names evs2.
Proof. apply flat_map_app. Qed.

Lemma assigned_alias (targets : list expr) (value : expr) (a : string) :
  a ∈ alias_names (assigned targets value)
  ↔ base_type_name value ∧ ∃ lineno, Name a lineno ∈ targets.
Proof.
  unfold assigned.
  destruct value as [id l| | | | | |];
    try (split; [by intros ?%elem_of_nil | by intros [[] _]]).
  simpl. case_bool_decide as Hb;
    [|split; [by intros ?%elem_of_nil | by intros [? _]]].
  split.
  - intros H. split; [done|].
    induction targets as [|t targets IH]; [by apply elem_of_nil in H|].
    destruct t as [tid tl| | | | | |]; simpl in H;
      try (destruct (IH H) as [l' ?]; exists l'; by right).
    apply elem_of_cons in H as [->|H]; [exists tl; left|].
    destruct (IH H) as [l' ?]. exists l'. by right.
  - intros [_ [l' H]].
    induction targets as [|t targets IH]; [by apply elem_of_nil in H|].
    apply elem_of_cons in H as [<-|H]; [left|].
    destruct t; simpl; try by apply IH. right. by apply IH.
Qed.

Lemma signature_no_alias fargs returns :
  alias_names (signature fargs returns) = [].
Proof.
  unfold signature. rewrite alias_names_app.
  assert (alias_names
            match returns with Some r => [Classify r] | None => [] end = [])
    as -> by by destruct returns.
  simpl. induction (args fargs) as [|x l IH]; [done|].
  simpl. rewrite alias_names_app, IH. by destruct (annotation x).
Qed.

(** A name is recorded by the statements walked so far exactly when one of
    them assigns a disallowed base type name to it. *)
Lemma recorded_by_statements (stmts : list stmt) (a : string) :
  a ∈ alias_names (flat_map own_events stmts)
  ↔ ∃ targets p lp la,
      Assign targets (Name p lp) ∈ stmts
      ∧ p ∈ DISALLOWED_BASE_TYPES ∧ Name a la ∈ targets.
Proof.
  induction stmts as [|s stmts IH].
  - split; [by intros ?%elem_of_nil|].
    by intros (? & ? & ? & ? & ?%elem_of_nil & _).
  - simpl. rewrite alias_names_app, elem_of_app, IH. split.
    + intros [H|(t & p & lp & la & Hin & Hp & Ht)].
      * destruct s as [targets value| | | | |]; simpl in H;
          try (by apply elem_of_nil in H).
        2: { rewrite signature_no_alias in H. by apply elem_of_nil in H. }
        apply assigned_alias in H as [Hb [la Ht]].
        destruct value as [p lp| | | | | |]; try done.
        exists targets, p, lp, la. split; [left | done].
      * exists t, p, lp, la. split; [by right | done].
    + intros (t & p & lp & la & Hin & Hp & Ht).
      apply elem_of_cons in Hin as [<-|Hin].
      * left. apply (assigned_alias t (Name p lp) a).
        split; [done | by exists la].
      * right. by exists t, p, lp, la.
Qed.

(** The report around an annotated assignment: what the statements walked
    before it gave, what its annotation yields under the aliases they
    recorded, what the statements walked after it give. *)
Lemma run_around_annotation (tree : mod_) (pre post : list stmt)
    (target ann : expr) (value : option expr) :
  module_statements tree = pre ++ AnnAssign target ann value :: post →
  run tree
  = report_of (flat_map own_events pre) ∅
    ++ found (list_to_set (alias_names (flat_map own_events pre))) ann
    ++ report_of (flat_map own_events post)
         (list_to_set (alias_names (flat_map own_events pre))).
Proof.
  intros H. rewrite run_statements, H, flat_map_app, report_of_app.
  simpl. by rewrite union_empty_r_L.
Qed.

(** C1, amended.  Take a variable annotation that is a bare name, anywhere
    in a module: at the top, in a class body, in a function body, in a
    compound statement.  When one of the statements walked before it,
    wherever that one stands, assigns a disallowed base type name to this
    name as a bare target, the annotation adds exactly one entry to the
    report, the AliasLeak violation at its position, between what was
    reported before it and what is reported after it.  When none does, the
    annotation is classified like any other name and adds no AliasLeak
    violation. *)
Theorem C1_alias_leak_once_recorded (tree : mod_) (pre post : list stmt)
    (target : expr) (a : string) (l : option nat) (value : option expr) :
  module_statements tree = pre ++ AnnAssign target (Name a l) value :: post →
  let recorded := list_to_set (alias_names (flat_map own_events pre)) in
  let before := report_of (flat_map own_events pre) ∅ in
  let after := report_of (flat_map own_events post) recorded in
  (∀ targets p lp la,
     Assign targets (Name p lp) ∈ pre →
     p ∈ DISALLOWED_BASE_TYPES →
     Name a la ∈ targets →
     run tree = before ++ violation l AliasLeak a :: after)
  ∧ ((¬ ∃ targets p lp la,
          Assign targets (Name p lp) ∈ pre
          ∧ p ∈ DISALLOWED_BASE_TYPES ∧ Name a la ∈ targets) →
     run tree
     = before
       ++ (if bool_decide (a ∈ DISALLOWED_BASE_TYPES) then
             [violation l BarePrimitive a]
           else if bool_decide (a ∈ DISALLOWED_GENERIC_TYPES) then
             [violation l UnparameterizedGeneric a]
           else [])
       ++ after
     ∧ violation l AliasLeak a
         ∉ (if bool_decide (a ∈ DISALLOWED_BASE_TYPES) then
              [violation l BarePrimitive a]
            else if bool_decide (a ∈ DISALLOWED_GENERIC_TYPES) then
              [violation l UnparameterizedGeneric a]
            else [])).
Proof.
  intros Hsplit recorded before after.
  pose proof (run_around_annotation _ _ _ _ _ _ Hsplit) as Hrun.
  fold recorded before after in Hrun. rewrite found_Name in Hrun.
  split.
  - intros targets p lp la Hin Hp Ht.
    assert (a ∈ recorded) as Ha.
    { apply elem_of_list_to_set, recorded_by_statements.
      by exists targets, p, lp, la. }
    by rewrite (bool_decide_eq_true_2 _ Ha) in Hrun.
  - intros Hnone.
    assert (a ∉ recorded) as Ha.
    { intros Ha. apply Hnone.
      by apply elem_of_list_to_set, recorded_by_statements in Ha. }
    rewrite (bool_decide_eq_false_2 _ Ha) in Hrun. split; [done|].
    repeat case_bool_decide; try apply not_elem_of_nil;
      rewrite list_elem_of_singleton; intros E;
      apply violation_rule_inj in E; discriminate E.
Qed.

Lemma C1_alias_leak_once_recorded_witness :
  run alias_then_class_field = [violation (Some 3) AliasLeak "AliasName"].
Proof.
  destruct (C1_alias_leak_once_recorded alias_then_class_field
              [ Assign [Name "AliasName" (Some 1)] (Name "str" (Some 1));
                ClassDef "C" [] []
                  [ AnnAssign (Name "x" (Some 3))
                      (Name "AliasName" (Some 3)) None ] [] ]
              [] (Name "x" (Some 3)) "AliasName" (Some 3) None eq_refl)
    as [H _].
  rewrite (H [Name "AliasName" (Some 1)] "str" (Some 1) (Some 1)).
  - reflexivity.
  - apply list_elem_of_here.
  - apply (bool_decide_unpack _). by vm_compute.
  - apply list_elem_of_here.
Defined.

(** C2, amended.  The report lists the violations in the order the walker
    finds them, and nothing is merged.  It is the concatenation, over all
    statements of the module in the order of a depth-first walk (a
    statement before the statements of its body, these from left to
    right; the bodies of classes, functions, async functions and compound
    statements included), of the violations of the annotations the
    statement itself carries: for an annotated assignment its annotation,
    for a function declaration the return annotation first and then the
    annotations of [args.args] from left to right, each found under the
    aliases recorded so far.  Within an annotation the violations come
    outer name first, then the parameter; the operands of a union, the
    elements of a tuple and the arguments of a call from left to right.
    An annotation classified twice is reported twice. *)
Theorem C2_discovery_order :
  (∀ tree,
     run tree = report_of (flat_map own_events (module_statements tree)) ∅)
  ∧ (∀ evs1 evs2 al,
       report_of (evs1 ++ evs2) al
       = report_of evs1 al
         ++ report_of evs2 (list_to_set (alias_names evs1) ∪ al))
  ∧ (∀ body1 body2 self,
       errors (visit_list visit (body1 ++ body2) self)
       = errors (visit_list visit body1 self)
         ++ errors (visit_list visit body2
                      (emptied (visit_list visit body1 self))))
  ∧ (∀ name fargs body decorator_list returns self,
       errors (visit (FunctionDef name fargs body decorator_list returns) self)
       = errors self ++ found_opt (aliases self) returns
         ++ flat_map (fun a => found_opt (aliases self) (annotation a))
              (args fargs)
         ++ errors (visit_list visit body (emptied self)))
  ∧ (∀ name bases keywords body decorator_list self,
       visit (ClassDef name bases keywords body decorator_list) self
       = visit_list visit body self)
  ∧ (∀ name fargs body decorator_list returns self,
       visit (AsyncFunctionDef name fargs body decorator_list returns) self
       = visit_list visit body self)
  ∧ (∀ children self,
       visit (OtherStmt children) self
       = visit_list visit
           (flat_map
              (fun child => match child with inl _ => [] | inr s => [s] end)
              children)
           self)
  ∧ (∀ al type_name lineno inner,
       found al (Subscript (Name type_name lineno) inner)
       = (if bool_decide (type_name ∈ DISALLOWED_GENERIC_TYPES)
             && negb (has_parameters inner)
          then [violation lineno UnparameterizedGeneric type_name] else [])
         ++ found al inner)
  ∧ (∀ al outer inner,
       is_Name outer = false →
       found al (Subscript outer inner) = found al outer ++ found al inner)
  ∧ (∀ al left_ right_,
       found al (BinOp left_ BitOr right_) = found al left_ ++ found al right_)
  ∧ (∀ al elts, found al (Tuple elts) = flat_map (found al) elts)
  ∧ (∀ al func args keywords,
       found al (Call func args keywords) = flat_map (found al) args)
  ∧ (∀ target ann value self,
       errors (visit (AnnAssign target ann value)
                 (visit (AnnAssign target ann value) self))
       = errors self ++ found (aliases self) ann ++ found (aliases self) ann).
Proof.
  split_and!.
  - apply run_statements.
  - apply report_of_app.
  - intros body1 body2 self. rewrite visit_list_app.
    by destruct (extends_visit_body body2 (visit_list visit body1 self))
      as (-> & _ & _).
  - intros name fargs body decorator_list returns self.
    rewrite visit_FunctionDef_found.
    destruct (extends_visit_body body
                {| errors :=
                     errors self ++ found_opt (aliases self) returns
                       ++ flat_map
                            (fun a => found_opt (aliases self) (annotation a))
                            (args fargs);
                   aliases := aliases self |}) as (-> & _ & _).
    unfold emptied. simpl. by rewrite <- !app_assoc.
  - apply visit_ClassDef_body.
  - apply visit_AsyncFunctionDef_body.
  - intros children self. simpl. revert self.
    induction children as [|[e|s] children IH]; intros self; [done| |].
    + change (visit_list ?f (inl e :: children) self)
        with (visit_list f children (visit_expr e self)).
      rewrite visit_expr_id. apply IH.
    + apply IH.
  - apply found_Subscript_Name.
  - apply found_Subscript_other.
  - intros al left_ right_. by rewrite found_BinOp.
  - apply found_Tuple.
  - apply found_Call.
  - intros target ann value self. rewrite !visit_AnnAssign_check.
    rewrite (check_annotation_found ann (check_annotation _ _)).
    rewrite (check_annotation_found ann self). simpl.
    by rewrite <- app_assoc.
Qed.

(** ** The classifier and the recursion limit *)

Lemma for_each_enough {A} (step : A → Linter → option Linter)
    (f : A → Linter → Linter) (l : list A) self :
  (∀ x s, x ∈ l → step x s = Some (f x s)) →
  for_each step l self = Some (fold_left (fun s x => f x s) l self).
Proof.
  unfold for_each. revert self.
  induction l as [|x l IH]; intros self H; [done|].
  simpl. rewrite H by left. apply IH. intros y s Hy. apply H. by right.
Qed.

Lemma nesting_elem_le (e : expr) (l : list expr) :
  e ∈ l → nesting e ≤ foldr (fun e n => nesting e `max` n) 0 l.
Proof.
  induction l as [|x l IH]; [by intros ?%elem_of_nil|].
  intros [->|H]%elem_of_cons; simpl; [lia|]. specialize (IH H). lia.
Qed.

Lemma nesting_pos (e : expr) : 0 < nesting e.
Proof. destruct e; simpl; lia. Qed.

Lemma check_annotation_in_Subscript_other below outer inner self :
  is_Name outer = false →
  check_annotation_in (S below) (Subscript outer inner) self
  = match check_annotation_in below outer self with
    | None => None
    | Some s => check_annotation_in below inner s
    end.
Proof. by destruct outer. Qed.

Lemma check_annotation_in_BitOr below left_ right_ self :
  check_annotation_in (S below) (BinOp left_ BitOr right_) self
  = match check_annotation_in below left_ self with
    | None => None
    | Some s => check_annotation_in below right_ s
    end.
Proof. done. Qed.

(** With more frames than the annotation is deep, no call fails, and the
    classifier returns what [check_annotation] gives. *)
Lemma check_annotation_in_enough (annotation : expr) :
  ∀ frames self,
    nesting annotation < frames →
    check_annotation_in frames annotation self
    = Some (check_annotation annotation self).
Proof.
  induction annotation as
    [id lineno | value attr lineno IH | value slice IHv IHs
    | left_ op right_ IHl IHr | elts IH | func args keywords _ IH _
    | children _] using expr_nested_ind;
    intros [|[|below]] self Hn; simpl in Hn; try lia.
  - simpl. by repeat case_bool_decide.
  - change (check_annotation (Attribute value attr lineno) self)
      with (fold_left
              (fun self disallowed =>
                 if endswith (get_full_attr_name (Attribute value attr lineno))
                      disallowed
                 then record_error lineno
                        (rule_message BarePrimitive
                           (get_full_attr_name (Attribute value attr lineno)))
                        self
                 else self)
              DISALLOWED_BASE_TYPES self).
    simpl. apply (for_each_enough _
      (fun disallowed self =>
         if endswith (get_full_attr_name (Attribute value attr lineno))
              disallowed
         then record_error lineno
                (rule_message BarePrimitive
                   (get_full_attr_name (Attribute value attr lineno))) self
         else self)).
    intros d s _. by destruct (endswith _ d).
  - pose proof (nesting_pos value). pose proof (nesting_pos slice).
    assert (∀ s, check_annotation_in (S below) slice s
                 = Some (check_annotation slice s)) as Hs
      by (intros s; apply IHs; lia).
    assert (∀ s, check_annotation_in (S below) value s
                 = Some (check_annotation value s)) as Hv
      by (intros s; apply IHv; lia).
    destruct (is_Name value) eqn:E.
    2: { rewrite check_Subscript_other, check_annotation_in_Subscript_other
           by done.
         rewrite Hv. apply Hs. }
    destruct value as [id l| | | | | |]; try discriminate E.
    change (check_annotation_in (S (S below))
              (Subscript (Name id l) slice) self)
      with (if bool_decide (id ∈ DISALLOWED_GENERIC_TYPES) then
              match has_parameters_in (S below) slice with
              | None => None
              | Some parameterized =>
                  match
                    if negb parameterized then
                      record_error_in (S below) l
                        (rule_message UnparameterizedGeneric id) self
                    else Some self
                  with
                  | None => None
                  | Some self => check_annotation_in (S below) slice self
                  end
              end
            else if bool_decide (id ∈ ALLOWED_GENERIC_TYPES) then
              check_annotation_in (S below) slice self
            else check_annotation_in (S below) slice self).
    case_bool_decide as Hg.
    + rewrite check_Subscript_generic by done.
      unfold has_parameters_in, record_error_in, call.
      destruct (has_parameters slice); cbn [negb]; apply Hs.
    + rewrite check_Subscript_name by done. case_bool_decide; apply Hs.
  - pose proof (nesting_pos left_). pose proof (nesting_pos right_).
    destruct op; try reflexivity.
    rewrite check_annotation_in_BitOr, IHl by lia. apply IHr. lia.
  - apply (for_each_enough (check_annotation_in (S below))
             check_annotation).
    intros e s He. rewrite Forall_forall in IH. apply IH; [done|].
    pose proof (nesting_elem_le e elts He). lia.
  - apply (for_each_enough (check_annotation_in (S below))
             check_annotation).
    intros e s He. rewrite Forall_forall in IH. apply IH; [done|].
    pose proof (nesting_elem_le e args He). lia.
  - reflexivity.
Qed.

(** C9, as stated, fails: the classifier calls itself once for every level
    of the annotation, and the interpreter allows a bounded number of
    nested calls (1000 by default, of which the callers have taken some).
    On the union of 1100 names, a valid annotation, no number of frames up
    to 1000 is enough and the classifier raises [RecursionError]; with 1100
    frames it returns. *)
Lemma C9_recursion_limit_exceeded :
  check_annotation_in 1000 (union_of 1099) Linter_init = None
  ∧ forallb
      (fun frames =>
         match check_annotation_in frames (union_of 1099) Linter_init with
         | None => true
         | Some _ => false
         end)
      (seq 0 1001)
    = true
  ∧ check_annotation_in 1100 (union_of 1099) Linter_init = Some Linter_init.
Proof. split_and!; by vm_compute. Qed.

(** C9, amended.  On every annotation tree that is less deep than the
    number of frames the interpreter still allows, the classifier returns
    normally: it gives the given state with violations appended and the
    same aliases, every expression variant either matching a branch or
    falling through; on a tree of a shape that no branch handles it
    returns the given state, so such an annotation yields zero violations.
    (On a deeper tree it can raise [RecursionError].) *)
Theorem C9_classifier_within_recursion_limit (frames : nat)
    (annotation : expr) (self : Linter) :
  nesting annotation < frames →
  check_annotation_in frames annotation self
  = Some (check_annotation annotation self)
  ∧ (∃ new,
       check_annotation_in frames annotation self
       = Some {| errors := errors self ++ new; aliases := aliases self |})
  ∧ (unrecognized annotation →
     check_annotation_in frames annotation self = Some self).
Proof.
  intros Hn. pose proof (check_annotation_in_enough _ _ self Hn) as H.
  split_and!.
  - exact H.
  - exists (found (aliases self) annotation).
    by rewrite H, check_annotation_found.
  - rewrite H. intros Hu. f_equal.
    destruct annotation as [| | |? op ?| | |]; simpl in *; try done.
    by destruct op.
Qed.

Lemma C9_classifier_within_recursion_limit_witness :
  check_annotation_in 1000
    (Subscript (Name "list" (Some 4)) (Name "dict" (Some 5))) Linter_init
  = Some
      (check_annotation
         (Subscript (Name "list" (Some 4)) (Name "dict" (Some 5)))
         Linter_init)
  ∧ check_annotation_in 1000 (OtherExpr []) Linter_init = Some Linter_init.
Proof.
  split.
  - apply C9_classifier_within_recursion_limit. simpl. lia.
  - apply (C9_classifier_within_recursion_limit 1000 (OtherExpr [])
             Linter_init); [simpl; lia | exact I].
Defined.

